(** * fc-poo: object-oriented teaching snippets, embedded and verified

    The repository holds four independent TypeScript programs:
    - the static-member, getter/setter and aggregation demos
      (classes [ContadorUsuarios], [MathUtils], [Pessoa], [User], [Address]);
    - [singleton.ts] (classes [ConfiguracaoApp], [Logger], [ContadorGlobal]);
    - [heranca.ts] (classes [Veiculo], [Calculadora], [ValidadorEmail],
      [ContaBancaria], ...);
    - [polimorfismo.ts] (abstract class [Animal] and its four subclasses).

    Each class becomes a module below.  Class-level (static) fields are
    threaded as an explicit state record; objects that are shared by
    reference live in a store indexed by locations; a call that may throw
    returns a [completion].  Calls to [console.log] touch no program state
    and are left out. *)

From Stdlib Require Import ZArith QArith Qpower Lqa Lia List Bool Ascii String.
From stdpp Require Import gmap list.

(** ** The JavaScript values the programs compute with *)

Module JS.

(** A [number].  The finite values are kept exact, as rationals: rounding
    to 64 bits and the sign of zero are outside this model.  [NaN] and the
    two infinities are kept, since the validations under study treat them
    specially. *)
Inductive number : Type :=
  | NaN
  | Infinity (negative : bool)
  | Fin (q : Q).

Definition of_Z (z : Z) : number := Fin (inject_Z z).

Definition Qlt_bool (x y : Q) : bool := negb (Qle_bool y x).

(** [a < b] *)
Definition lt (a b : number) : bool :=
  match a, b with
  | NaN, _ | _, NaN => false
  | Infinity sa, Infinity sb => sa && negb sb
  | Infinity sa, Fin _ => sa
  | Fin _, Infinity sb => negb sb
  | Fin x, Fin y => Qlt_bool x y
  end.

(** [a <= b] *)
Definition le (a b : number) : bool :=
  match a, b with
  | NaN, _ | _, NaN => false
  | Infinity sa, Infinity sb => sa || negb sb
  | Infinity sa, Fin _ => sa
  | Fin _, Infinity sb => negb sb
  | Fin x, Fin y => Qle_bool x y
  end.

(** [a > b] and [a >= b] *)
Definition gt (a b : number) : bool := lt b a.
Definition ge (a b : number) : bool := le b a.

(** [a === b] on numbers *)
Definition strict_eq (a b : number) : bool :=
  match a, b with
  | NaN, _ | _, NaN => false
  | Infinity sa, Infinity sb => Bool.eqb sa sb
  | Fin x, Fin y => Qeq_bool x y
  | _, _ => false
  end.

Definition neg (a : number) : number :=
  match a with
  | NaN => NaN
  | Infinity s => Infinity (negb s)
  | Fin x => Fin (- x)
  end.

(** [a + b] *)
Definition add (a b : number) : number :=
  match a, b with
  | NaN, _ | _, NaN => NaN
  | Infinity sa, Infinity sb => if Bool.eqb sa sb then Infinity sa else NaN
  | Infinity sa, Fin _ => Infinity sa
  | Fin _, Infinity sb => Infinity sb
  | Fin x, Fin y => Fin (x + y)
  end.

(** [a - b] *)
Definition sub (a b : number) : number := add a (neg b).

(** The finite values a [number] can hold are the binary64 ones: an
    integer of less than 53 bits times a power of two in the format's
    range.  [add] and [sub] give the exact result, which is what the
    runtime computes whenever that result is representable; elsewhere the
    runtime rounds (at [2^53 + 1] its sum is [2^53]).  A statement that
    pins a computed amount therefore asks for a representable result. *)
Definition representavel (q : Q) : Prop :=
  exists m e : Z,
    (Z.abs m < 2 ^ 53)%Z /\ (-1074 <= e)%Z /\ (e <= 971)%Z
    /\ (q == inject_Z m * 2 ^ e)%Q.

Definition duplo (a : number) : Prop :=
  match a with
  | Fin q => representavel q
  | _ => True
  end.

(** [Number.isFinite] and [Number.isInteger] *)
Definition isFinite (a : number) : bool :=
  match a with Fin _ => true | _ => false end.

Definition isInteger (a : number) : bool :=
  match a with
  | Fin x => (Qnum x mod Zpos (Qden x) =? 0)%Z
  | _ => false
  end.

(** A string is its sequence of UTF-16 code units. *)
Abbreviation jsstring := (list N).

(** The code units of an ASCII literal. *)
Definition lit (s : string) : jsstring :=
  map N_of_ascii (list_ascii_of_string s).

(** [String.prototype.trim] strips the code units that ECMAScript calls
    WhiteSpace or LineTerminator from both ends. *)
Definition isWhiteSpace (c : N) : bool :=
  ((9 <=? c) && (c <=? 13) || (c =? 32) || (c =? 160) || (c =? 5760)
   || (8192 <=? c) && (c <=? 8202) || (c =? 8232) || (c =? 8233)
   || (c =? 8239) || (c =? 8287) || (c =? 12288) || (c =? 65279))%N.

Fixpoint trimStart (s : jsstring) : jsstring :=
  match s with
  | c :: s' => if isWhiteSpace c then trimStart s' else s
  | [] => []
  end.

Definition trimEnd (s : jsstring) : jsstring := rev (trimStart (rev s)).

Definition trim (s : jsstring) : jsstring := trimEnd (trimStart s).

(** [Array.prototype.join] *)
Fixpoint join (sep : jsstring) (xs : list jsstring) : jsstring :=
  match xs with
  | [] => []
  | [x] => x
  | x :: xs' => x ++ sep ++ join sep xs'
  end.

(** What a [throw] carries: [new Error(message)], or the [TypeError] of a
    member access through a reference that denotes no object. *)
Inductive exception : Type :=
  | Error (message : jsstring)
  | TypeError.

(** How a call ends: it returns a value or it throws. *)
Inductive completion (A : Type) : Type :=
  | Normal (a : A)
  | Throw (e : exception).
Arguments Normal {A} a.
Arguments Throw {A} e.

Definition throws {A} (c : completion A) : bool :=
  match c with Throw _ => true | Normal _ => false end.

(** Object references. *)
Abbreviation loc := positive.

End JS.
Import JS.

(** ** Static members: class [ContadorUsuarios] *)

Module ContadorUsuarios.

(** The class-level fields [totalUsuarios] and [proximoId]. *)
Record statics : Type := {
  totalUsuarios : number;
  proximoId : number
}.

(** Their initialisers, run when the class is loaded. *)
Definition initial : statics :=
  {| totalUsuarios := of_Z 0; proximoId := of_Z 1 |}.

Definition IDADE_MINIMA : number := of_Z 18.
Definition IDADE_MAXIMA : number := of_Z 120.

(** The instance fields. *)
Record instance : Type := {
  id : number;
  nome : jsstring;
  idade : number
}.

Definition validarIdade (idade : number) : bool :=
  ge idade IDADE_MINIMA && le idade IDADE_MAXIMA.

(** The message of the constructor's error; the two interpolated constants
    print as [18] and [120]. *)
Definition mensagemIdade : jsstring :=
  lit "Idade deve estar entre " ++ lit "18" ++ lit " e " ++ lit "120"
  ++ lit " anos".

(** [new ContadorUsuarios(nome, idade)] *)
Definition constructor (nome : jsstring) (idade : number) (st : statics)
  : completion instance * statics :=
  if negb (validarIdade idade) then (Throw (Error mensagemIdade), st)
  else
    let this_id := proximoId st in
    let st1 := {| totalUsuarios := totalUsuarios st;
                  proximoId := add (proximoId st) (of_Z 1) |} in
    let this := {| id := this_id; nome := nome; idade := idade |} in
    let st2 := {| totalUsuarios := add (totalUsuarios st1) (of_Z 1);
                  proximoId := proximoId st1 |} in
    (Normal this, st2).

Definition getTotalUsuarios (st : statics) : number := totalUsuarios st.

Definition criarUsuarioAdulto (nome : jsstring) (st : statics)
  : completion instance * statics :=
  constructor nome IDADE_MINIMA st.

Definition resetarContador (st : statics) : statics :=
  {| totalUsuarios := of_Z 0; proximoId := of_Z 1 |}.

Definition compararIdade (usuario1 usuario2 : instance) : number :=
  sub (idade usuario1) (idade usuario2).

Definition getId (this : instance) : number := id this.
Definition getNome (this : instance) : jsstring := nome this.
Definition getIdade (this : instance) : number := idade this.

(** The states of the class-level fields that a program can reach: every
    change goes through a construction (the factory method is one) or
    through the reset. *)
Inductive reachable : statics -> Prop :=
  | reach_initial : reachable initial
  | reach_constructor nome idade st :
      reachable st -> reachable (snd (constructor nome idade st))
  | reach_resetar st :
      reachable st -> reachable (resetarContador st).

(** A caller that wraps each construction in [try]/[catch] and goes on:
    only the class-level fields matter afterwards. *)
Definition tentativas (args : list (jsstring * number)) (st : statics)
  : statics :=
  fold_left (fun s a => snd (constructor (fst a) (snd a) s)) args st.

(** An age lies in the inclusive range from 18 to 120. *)
Definition idadeNoIntervalo (idade : number) : Prop :=
  exists q : Q, idade = Fin q /\ (18 <= q)%Q /\ (q <= 120)%Q.

End ContadorUsuarios.

(** ** Getters and setters: class [Pessoa] *)

Module Pessoa.

(** The private fields.  [_idade] is declared without an initialiser, so
    it holds [undefined] ([None]) until the setter has accepted a value. *)
Record instance : Type := {
  _nome : jsstring;
  _idade : option number
}.

(** The message reads: Idade inv['a]lida: deve ser inteiro n[~a]o negativo. *)
Definition mensagemIdade : jsstring :=
  lit "Idade inv" ++ [225%N] ++ lit "lida: deve ser inteiro n" ++ [227%N]
  ++ lit "o negativo.".

Definition get_nome (this : instance) : jsstring := _nome this.

Definition set_nome (valor : jsstring) (this : instance) : instance :=
  {| _nome := trim valor; _idade := _idade this |}.

Definition get_idade (this : instance) : option number := _idade this.

Definition set_idade (valor : number) (this : instance)
  : completion unit * instance :=
  if negb (isInteger valor) || lt valor (of_Z 0)
  then (Throw (Error mensagemIdade), this)
  else (Normal tt, {| _nome := _nome this; _idade := Some valor |}).

(** [new Pessoa(nome, idade)]: the age goes through the setter, whose
    exception aborts the construction. *)
Definition constructor (nome : jsstring) (idade : number)
  : completion instance :=
  let this := {| _nome := trim nome; _idade := None |} in
  match set_idade idade this with
  | (Normal _, this') => Normal this'
  | (Throw e, _) => Throw e
  end.

(** [undefined >= 18] is [false]. *)
Definition get_ehAdulto (this : instance) : bool :=
  match _idade this with
  | Some v => ge v (of_Z 18)
  | None => false
  end.

(** A value is negative; a value is an integer. *)
Definition negativo (v : number) : Prop :=
  v = Infinity true \/ exists q : Q, v = Fin q /\ (q < 0)%Q.

Definition inteiro (v : number) : Prop :=
  exists (q : Q) (z : Z), v = Fin q /\ (q == inject_Z z)%Q.

(** [t] is [s] without its leading and trailing white space. *)
Definition limpoNoInicio (t : jsstring) : Prop :=
  match t with
  | c :: _ => isWhiteSpace c = false
  | [] => True
  end.

Definition aparado (s t : jsstring) : Prop :=
  exists pre suf : jsstring,
    s = pre ++ t ++ suf
    /\ Forall (fun c => isWhiteSpace c = true) pre
    /\ Forall (fun c => isWhiteSpace c = true) suf
    /\ limpoNoInicio t /\ limpoNoInicio (rev t).

(** The writes a program can attempt on a [Pessoa]; a caller that catches
    a rejected write goes on with the object as it stands. *)
Inductive op : Type :=
  | SetNome (valor : jsstring)
  | SetIdade (valor : number).

Definition step (this : instance) (o : op) : instance :=
  match o with
  | SetNome valor => set_nome valor this
  | SetIdade valor => snd (set_idade valor this)
  end.

Definition exec (ops : list op) (this : instance) : instance :=
  fold_left step ops this.

End Pessoa.

(** ** Singletons: classes [ConfiguracaoApp], [Logger], [ContadorGlobal]

    Each class keeps its instance in the static field [instancia], which
    holds [undefined] ([None]) until the first [getInstance].  Objects are
    shared by reference, so each class has a store of its objects;
    [new] takes a location that the store does not use yet.  Instance
    methods receive [this] as a location. *)

Module ConfiguracaoApp.

(** The values kept in the [Map<string, any>]. *)
Inductive any : Type :=
  | AString (s : jsstring)
  | ANumber (n : number)
  | ABoolean (b : bool).

Record instance : Type := {
  configuracoes : gmap (list N) any
}.

Record state : Type := {
  instancia : option loc;
  objetos : gmap loc instance
}.

Definition initial : state := {| instancia := None; objetos := ∅ |}.

Definition carregarConfiguracoesPadrao (this : instance) : instance :=
  {| configuracoes :=
       <[lit "debug" := ABoolean false]>
         (<[lit "timeout" := ANumber (of_Z 5000)]>
            (<[lit "language" := AString (lit "pt-BR")]>
               (<[lit "theme" := AString (lit "dark")]>
                  (configuracoes this)))) |}.

(** The private constructor: an empty map, then the defaults. *)
Definition constructor : instance :=
  carregarConfiguracoesPadrao {| configuracoes := ∅ |}.

Definition getInstance (st : state) : loc * state :=
  match instancia st with
  | None =>
      let l := fresh (dom (objetos st)) in
      (l, {| instancia := Some l;
             objetos := <[l := constructor]> (objetos st) |})
  | Some l => (l, st)
  end.

(** [Map.prototype.get] answers [undefined] ([None]) for a missing key. *)
Definition getConfiguracao (this : loc) (chave : jsstring) (st : state)
  : completion (option any) :=
  match objetos st !! this with
  | None => Throw TypeError
  | Some o => Normal (configuracoes o !! chave)
  end.

Definition setConfiguracao
    (this : loc) (chave : jsstring) (valor : any) (st : state)
  : completion unit * state :=
  match objetos st !! this with
  | None => (Throw TypeError, st)
  | Some o =>
      (Normal tt,
       {| instancia := instancia st;
          objetos :=
            <[this := {| configuracoes := <[chave := valor]> (configuracoes o) |}]>
              (objetos st) |})
  end.

(** Prints only. *)
Definition listarConfiguracoes (this : loc) (st : state)
  : completion unit * state :=
  match objetos st !! this with
  | None => (Throw TypeError, st)
  | Some _ => (Normal tt, st)
  end.

(** Everything a program can do with the class. *)
Inductive op : Type :=
  | GetInstance
  | GetConfiguracao (this : loc) (chave : jsstring)
  | SetConfiguracao (this : loc) (chave : jsstring) (valor : any)
  | ListarConfiguracoes (this : loc).

Definition step (st : state) (o : op) : state :=
  match o with
  | GetInstance => snd (getInstance st)
  | GetConfiguracao _ _ => st
  | SetConfiguracao this chave valor => snd (setConfiguracao this chave valor st)
  | ListarConfiguracoes this => snd (listarConfiguracoes this st)
  end.

Definition exec (ops : list op) (st : state) : state := fold_left step ops st.

(** The cached reference, once set, denotes an object of the store. *)
Definition instanciaViva (st : state) : Prop :=
  forall l : loc, instancia st = Some l -> is_Some (objetos st !! l).

End ConfiguracaoApp.

Module Logger.

(** The field [logs] holds a reference to an array. *)
Record instance : Type := {
  logs : loc
}.

Record state : Type := {
  instancia : option loc;
  objetos : gmap loc instance;
  arrays : gmap loc (list jsstring)
}.

Definition initial : state :=
  {| instancia := None; objetos := ∅; arrays := ∅ |}.

Inductive nivel : Type := INFO | WARN | ERROR.

Definition nivel_string (n : nivel) : jsstring :=
  match n with
  | INFO => lit "INFO"
  | WARN => lit "WARN"
  | ERROR => lit "ERROR"
  end.

(** The private constructor: the field initialiser makes a new empty
    array, and the object refers to it. *)
Definition constructor (st : state) : loc * state :=
  let a := fresh (dom (arrays st)) in
  let l := fresh (dom (objetos st)) in
  (l, {| instancia := instancia st;
         objetos := <[l := {| logs := a |}]> (objetos st);
         arrays := <[a := []]> (arrays st) |}).

Definition getInstance (st : state) : loc * state :=
  match instancia st with
  | None =>
      let '(l, st1) := constructor st in
      (l, {| instancia := Some l;
             objetos := objetos st1;
             arrays := arrays st1 |})
  | Some l => (l, st)
  end.

(** [timestamp] is what [new Date().toISOString()] answers at the call. *)
Definition log
    (this : loc) (n : nivel) (mensagem timestamp : jsstring) (st : state)
  : completion unit * state :=
  match objetos st !! this with
  | None => (Throw TypeError, st)
  | Some o =>
      match arrays st !! logs o with
      | None => (Throw TypeError, st)
      | Some xs =>
          let logEntry :=
            lit "[" ++ timestamp ++ lit "] " ++ nivel_string n ++ lit ": "
            ++ mensagem in
          (Normal tt,
           {| instancia := instancia st;
              objetos := objetos st;
              arrays := <[logs o := xs ++ [logEntry]]> (arrays st) |})
      end
  end.

Definition info (this : loc) (mensagem timestamp : jsstring) (st : state)
  : completion unit * state :=
  log this INFO mensagem timestamp st.

Definition warn (this : loc) (mensagem timestamp : jsstring) (st : state)
  : completion unit * state :=
  log this WARN mensagem timestamp st.

Definition error (this : loc) (mensagem timestamp : jsstring) (st : state)
  : completion unit * state :=
  log this ERROR mensagem timestamp st.

(** The spread [[...this.logs]] builds a new array with the same entries. *)
Definition getLogs (this : loc) (st : state) : completion loc * state :=
  match objetos st !! this with
  | None => (Throw TypeError, st)
  | Some o =>
      match arrays st !! logs o with
      | None => (Throw TypeError, st)
      | Some xs =>
          let r := fresh (dom (arrays st)) in
          (Normal r,
           {| instancia := instancia st;
              objetos := objetos st;
              arrays := <[r := xs]> (arrays st) |})
      end
  end.

(** [this.logs = []] points the field at a new empty array. *)
Definition limparLogs (this : loc) (st : state) : completion unit * state :=
  match objetos st !! this with
  | None => (Throw TypeError, st)
  | Some o =>
      let a := fresh (dom (arrays st)) in
      (Normal tt,
       {| instancia := instancia st;
          objetos := <[this := {| logs := a |}]> (objetos st);
          arrays := <[a := []]> (arrays st) |})
  end.

Definition exportarLogs (this : loc) (st : state) : completion jsstring :=
  match objetos st !! this with
  | None => Throw TypeError
  | Some o =>
      match arrays st !! logs o with
      | None => Throw TypeError
      | Some xs => Normal (join [10%N] xs)
      end
  end.

(** Client code that holds a reference to an array may change it at will:
    whatever it does ([push], [pop], an indexed write, [length = 0], ...)
    leaves some list of entries at that location. *)
Definition mutarArray (r : loc) (xs : list jsstring) (st : state) : state :=
  {| instancia := instancia st;
     objetos := objetos st;
     arrays := <[r := xs]> (arrays st) |}.

Inductive op : Type :=
  | GetInstance
  | Log (this : loc) (n : nivel) (mensagem timestamp : jsstring)
  | Info (this : loc) (mensagem timestamp : jsstring)
  | Warn (this : loc) (mensagem timestamp : jsstring)
  | Err (this : loc) (mensagem timestamp : jsstring)
  | GetLogs (this : loc)
  | LimparLogs (this : loc)
  | ExportarLogs (this : loc).

Definition step (st : state) (o : op) : state :=
  match o with
  | GetInstance => snd (getInstance st)
  | Log this n m t => snd (log this n m t st)
  | Info this m t => snd (info this m t st)
  | Warn this m t => snd (warn this m t st)
  | Err this m t => snd (error this m t st)
  | GetLogs this => snd (getLogs this st)
  | LimparLogs this => snd (limparLogs this st)
  | ExportarLogs _ => st
  end.

Definition exec (ops : list op) (st : state) : state := fold_left step ops st.

(** In a well-formed state the [logs] field of every logger refers to an
    array of the store. *)
Definition bemFormado (st : state) : Prop :=
  forall (l : loc) (o : instance),
    objetos st !! l = Some o -> is_Some (arrays st !! logs o).

(** A logger with two entries, as left by [getInstance], [info] and
    [warn]; the logger is at the first location and so is its array. *)
Definition doisLogs : state :=
  snd (warn 1 (lit "debug") (lit "T2")
         (snd (info 1 (lit "inicio") (lit "T1")
                 (snd (getInstance initial))))).

(** A call of [log], by its three arguments, and the entry it stores. *)
Definition formatar (c : nivel * jsstring * jsstring) : jsstring :=
  let '(n, mensagem, timestamp) := c in
  lit "[" ++ timestamp ++ lit "] " ++ nivel_string n ++ lit ": " ++ mensagem.

(** The array at [r] holds [xs] and no logger refers to it. *)
Definition alheio (r : loc) (xs : list jsstring) (st : state) : Prop :=
  arrays st !! r = Some xs
  /\ forall (l : loc) (ob : instance), objetos st !! l = Some ob -> logs ob <> r.

Definition chamar (this : loc) (c : nivel * jsstring * jsstring) : op :=
  let '(n, mensagem, timestamp) := c in Log this n mensagem timestamp.

End Logger.

Module ContadorGlobal.

Record instance : Type := {
  contador : number
}.

Record state : Type := {
  instancia : option loc;
  objetos : gmap loc instance
}.

Definition initial : state := {| instancia := None; objetos := ∅ |}.

Definition constructor : instance := {| contador := of_Z 0 |}.

Definition getInstance (st : state) : loc * state :=
  match instancia st with
  | None =>
      let l := fresh (dom (objetos st)) in
      (l, {| instancia := Some l;
             objetos := <[l := constructor]> (objetos st) |})
  | Some l => (l, st)
  end.

(** [++this.contador] answers the new value. *)
Definition incrementar (this : loc) (st : state) : completion number * state :=
  match objetos st !! this with
  | None => (Throw TypeError, st)
  | Some o =>
      let v := add (contador o) (of_Z 1) in
      (Normal v,
       {| instancia := instancia st;
          objetos := <[this := {| contador := v |}]> (objetos st) |})
  end.

Definition decrementar (this : loc) (st : state) : completion number * state :=
  match objetos st !! this with
  | None => (Throw TypeError, st)
  | Some o =>
      let v := sub (contador o) (of_Z 1) in
      (Normal v,
       {| instancia := instancia st;
          objetos := <[this := {| contador := v |}]> (objetos st) |})
  end.

Definition getValor (this : loc) (st : state) : completion number :=
  match objetos st !! this with
  | None => Throw TypeError
  | Some o => Normal (contador o)
  end.

Definition resetar (this : loc) (st : state) : completion unit * state :=
  match objetos st !! this with
  | None => (Throw TypeError, st)
  | Some _ =>
      (Normal tt,
       {| instancia := instancia st;
          objetos := <[this := {| contador := of_Z 0 |}]> (objetos st) |})
  end.

Inductive op : Type :=
  | GetInstance
  | Incrementar (this : loc)
  | Decrementar (this : loc)
  | GetValor (this : loc)
  | Resetar (this : loc).

Definition step (st : state) (o : op) : state :=
  match o with
  | GetInstance => snd (getInstance st)
  | Incrementar this => snd (incrementar this st)
  | Decrementar this => snd (decrementar this st)
  | GetValor _ => st
  | Resetar this => snd (resetar this st)
  end.

Definition exec (ops : list op) (st : state) : state := fold_left step ops st.

Definition ehIncrementar (o : op) : bool :=
  match o with Incrementar _ => true | _ => false end.

Definition ehDecrementar (o : op) : bool :=
  match o with Decrementar _ => true | _ => false end.

End ContadorGlobal.

(** *** What the three classes have in common

    The static side of a singleton class: the states of its class-level
    scope, the cached reference, the objects alive in a state, the access
    point [getInstance], and the operations a program may run. *)

Module Singleton.

Record classe : Type := {
  estado : Type;
  operacao : Type;
  inicial : estado;
  instanciaDe : estado -> option loc;
  vivos : estado -> gset loc;
  acessar : estado -> loc * estado;
  passo : estado -> operacao -> estado;
  ehAcesso : operacao -> bool
}.

Definition executar (C : classe) (ops : list (operacao C)) (st : estado C)
  : estado C :=
  fold_left (passo C) ops st.

(** The singleton discipline:
    - the class starts without an instance, and stays so until the first
      access;
    - an access that finds no instance makes a new object;
    - after an access the class holds that very reference whatever
      operations follow;
    - any two accesses of one run answer the same reference. *)
Definition unicaInstancia (C : classe) : Prop :=
  instanciaDe C (inicial C) = None
  /\ (forall ops : list (operacao C),
        forallb (fun o => negb (ehAcesso C o)) ops = true ->
        instanciaDe C (executar C ops (inicial C)) = None)
  /\ (forall st : estado C,
        instanciaDe C st = None ->
        (fst (acessar C st) ∉ vivos C st)
        /\ (fst (acessar C st) ∈ vivos C (snd (acessar C st))))
  /\ (forall (st : estado C) (ops : list (operacao C)),
        instanciaDe C (executar C ops (snd (acessar C st)))
        = Some (fst (acessar C st)))
  /\ (forall pre mid : list (operacao C),
        fst (acessar C (executar C mid
                          (snd (acessar C (executar C pre (inicial C))))))
        = fst (acessar C (executar C pre (inicial C)))).

Definition ConfiguracaoApp : classe :=
  {| estado := ConfiguracaoApp.state;
     operacao := ConfiguracaoApp.op;
     inicial := ConfiguracaoApp.initial;
     instanciaDe := ConfiguracaoApp.instancia;
     vivos := fun st => dom (ConfiguracaoApp.objetos st);
     acessar := ConfiguracaoApp.getInstance;
     passo := ConfiguracaoApp.step;
     ehAcesso := fun o =>
       match o with ConfiguracaoApp.GetInstance => true | _ => false end |}.

Definition Logger : classe :=
  {| estado := Logger.state;
     operacao := Logger.op;
     inicial := Logger.initial;
     instanciaDe := Logger.instancia;
     vivos := fun st => dom (Logger.objetos st);
     acessar := Logger.getInstance;
     passo := Logger.step;
     ehAcesso := fun o =>
       match o with Logger.GetInstance => true | _ => false end |}.

Definition ContadorGlobal : classe :=
  {| estado := ContadorGlobal.state;
     operacao := ContadorGlobal.op;
     inicial := ContadorGlobal.initial;
     instanciaDe := ContadorGlobal.instancia;
     vivos := fun st => dom (ContadorGlobal.objetos st);
     acessar := ContadorGlobal.getInstance;
     passo := ContadorGlobal.step;
     ehAcesso := fun o =>
       match o with ContadorGlobal.GetInstance => true | _ => false end |}.

End Singleton.

(** ** Cohesion: classes [Calculadora] and [ContaBancaria] *)

Module Calculadora.

(** The message reads: Divis[~a]o por zero n[~a]o ['e] permitida *)
Definition mensagemDivisao : jsstring :=
  lit "Divis" ++ [227%N] ++ lit "o por zero n" ++ [227%N] ++ lit "o "
  ++ [233%N] ++ lit " permitida".

Definition somar (a b : number) : number := add a b.

Definition subtrair (a b : number) : number := sub a b.

(** [a / b] is the runtime's division of doubles, which rounds; it is
    taken as the parameter [quociente]. *)
Definition dividir (quociente : number -> number -> number) (a b : number)
  : completion number :=
  if strict_eq b (of_Z 0) then Throw (Error mensagemDivisao)
  else Normal (quociente a b).

(** A number equals zero. *)
Definition zero (b : number) : Prop :=
  exists q : Q, b = Fin q /\ (q == 0)%Q.

(** The message reads: N[~a]o ['e] poss['i]vel calcular raiz quadrada de
    n['u]mero negativo *)
Definition mensagemRaiz : jsstring :=
  lit "N" ++ [227%N] ++ lit "o " ++ [233%N] ++ lit " poss" ++ [237%N]
  ++ lit "vel calcular raiz quadrada de n" ++ [250%N] ++ lit "mero negativo".

(** [Math.sqrt] is taken as a parameter: the exact numbers of this model
    have no square roots in general. *)
Definition calcularRaizQuadrada (sqrt : number -> number) (numero : number)
  : completion number :=
  if lt numero (of_Z 0) then Throw (Error mensagemRaiz)
  else Normal (sqrt numero).

End Calculadora.

Module ContaBancaria.

Record instance : Type := {
  saldo : number;
  numeroConta : jsstring;
  titular : jsstring
}.

(** The accounts alive in a program, by reference: [transferir] receives
    a second account, which may be the first one again. *)
Abbreviation heap := (gmap loc instance).

(** A method body: it reads and updates the store and may throw. *)
Definition M (A : Type) : Type := heap -> completion A * heap.

Definition ret {A} (a : A) : M A := fun h => (Normal a, h).

Definition throw {A} (e : exception) : M A := fun h => (Throw e, h).

Definition bind {A B} (m : M A) (f : A -> M B) : M B :=
  fun h =>
    match m h with
    | (Normal a, h1) => f a h1
    | (Throw e, h1) => (Throw e, h1)
    end.

Declare Scope metodo_scope.
Notation "m ;; k" := (bind m (fun _ => k))
  (at level 100, k at level 200, right associativity) : metodo_scope.
Local Open Scope metodo_scope.

(** Reading and writing the fields of [this]. *)
Definition obter (this : loc) : M instance :=
  fun h =>
    match h !! this with
    | Some o => (Normal o, h)
    | None => (Throw TypeError, h)
    end.

Definition comSaldo (o : instance) (v : number) : instance :=
  {| saldo := v; numeroConta := numeroConta o; titular := titular o |}.

Definition gravarSaldo (this : loc) (v : number) : M unit :=
  bind (obter this) (fun o h => (Normal tt, <[this := comSaldo o v]> h)).

(** [new ContaBancaria(numeroConta, titular, saldoInicial = 0)]: a missing
    third argument ([None]) takes the default. *)
Definition constructor
    (numeroConta titular : jsstring) (saldoInicial : option number)
    (h : heap) : loc * heap :=
  let this := fresh (dom h) in
  (this,
   <[this := {| saldo := default (of_Z 0) saldoInicial;
                numeroConta := numeroConta;
                titular := titular |}]> h).

Definition validarValor (valor : number) : bool :=
  gt valor (of_Z 0) && isFinite valor.

Definition temSaldoSuficiente (this : instance) (valor : number) : bool :=
  ge (saldo this) valor.

(** Prints only. *)
Definition registrarOperacao (this : loc) : M unit :=
  bind (obter this) (fun _ => ret tt).

Definition depositar (this : loc) (valor : number) : M unit :=
  bind (obter this) (fun o =>
    if negb (validarValor valor)
    then throw (Error (lit "Valor deve ser positivo"))
    else gravarSaldo this (add (saldo o) valor) ;; registrarOperacao this).

Definition sacar (this : loc) (valor : number) : M unit :=
  bind (obter this) (fun o =>
    if negb (validarValor valor)
    then throw (Error (lit "Valor deve ser positivo"))
    else if negb (temSaldoSuficiente o valor)
    then throw (Error (lit "Saldo insuficiente"))
    else gravarSaldo this (sub (saldo o) valor) ;; registrarOperacao this).

Definition consultarSaldo (this : loc) : M number :=
  bind (obter this) (fun o => ret (saldo o)).

(** The last line reads [contaDestino.numeroConta] for the printed text. *)
Definition transferir (this : loc) (valor : number) (contaDestino : loc)
  : M unit :=
  sacar this valor ;;
  depositar contaDestino valor ;;
  obter contaDestino ;;
  registrarOperacao this.

(** The operations that change a balance, run one after another by a
    caller that catches what they throw and goes on. *)
Inductive op : Type :=
  | Depositar (this : loc) (valor : number)
  | Sacar (this : loc) (valor : number)
  | Transferir (this : loc) (valor : number) (contaDestino : loc).

Definition step (h : heap) (o : op) : heap :=
  match o with
  | Depositar this valor => snd (depositar this valor h)
  | Sacar this valor => snd (sacar this valor h)
  | Transferir this valor contaDestino =>
      snd (transferir this valor contaDestino h)
  end.

Definition exec (ops : list op) (h : heap) : heap := fold_left step ops h.

(** The balance of the account at [this], if there is one. *)
Definition saldoDe (this : loc) (h : heap) : option number :=
  saldo <$> h !! this.

(** A number is not negative; an amount is positive and finite. *)
Definition naoNegativo (v : number) : Prop :=
  v = Infinity false \/ exists q : Q, v = Fin q /\ (0 <= q)%Q.

Definition positivoFinito (v : number) : Prop :=
  exists q : Q, v = Fin q /\ (0 < q)%Q.

(** The account at [a] exists and its balance is not negative. *)
Definition saldoNaoNegativo (a : loc) (h : heap) : Prop :=
  exists c : instance, h !! a = Some c /\ naoNegativo (saldo c).

(** The two accounts of the example run: [conta1] at the first location
    with 1000, [conta2] at the second with 500. *)
Definition contas : heap :=
  snd (constructor (lit "67890") (lit "Maria Santos") (Some (of_Z 500))
         (snd (constructor (lit "12345") (lit "Joao Silva")
                 (Some (of_Z 1000)) ∅))).


End ContaBancaria.

(** ** Polymorphism: the abstract class [Animal] and its subclasses *)

Module Animal.

(** An [Animal] reference denotes an object of one of the four concrete
    subclasses; each carries the inherited field [nome]. *)
Inductive instance : Type :=
  | Cachorro (nome : jsstring)
  | Gato (nome : jsstring)
  | Vaca (nome : jsstring)
  | Pato (nome : jsstring).

Inductive classe : Type := CCachorro | CGato | CVaca | CPato.

Definition classeDe (this : instance) : classe :=
  match this with
  | Cachorro _ => CCachorro
  | Gato _ => CGato
  | Vaca _ => CVaca
  | Pato _ => CPato
  end.

Definition nome (this : instance) : jsstring :=
  match this with
  | Cachorro n | Gato n | Vaca n | Pato n => n
  end.

(** The abstract method: the call goes to the implementation of the
    object's own class. *)
Definition emitirSom (this : instance) : jsstring :=
  match this with
  | Cachorro n => n ++ lit " faz: Au au au!"
  | Gato n => n ++ lit " faz: Miau miau!"
  | Vaca n => n ++ lit " faz: Muuuu!"
  | Pato n => n ++ lit " faz: Quack quack!"
  end.

(** The inherited method; the text reads: est['a] dormindo *)
Definition dormir (this : instance) : jsstring :=
  nome this ++ lit " est" ++ [225%N] ++ lit " dormindo".

Definition animais : list instance :=
  [Cachorro (lit "Rex"); Gato (lit "Mimi"); Vaca (lit "Mimosa");
   Pato (lit "Donald")].

(** What [animais.forEach(animal => console.log(animal.emitirSom()))]
    prints, line by line. *)
Definition sons (xs : list instance) : list jsstring := map emitirSom xs.

(** The last four code units of a string, last one first. *)
Definition final (s : jsstring) : jsstring := firstn 4 (rev s).

End Animal.

(** ** Static helpers: class [MathUtils] *)

Module MathUtils.

(** [a * b], exact: the runtime's product rounds, and overflows to an
    infinity or underflows to zero, with the sign kept. *)
Definition mul (a b : number) : number :=
  match a, b with
  | NaN, _ | _, NaN => NaN
  | Infinity sa, Infinity sb => Infinity (xorb sa sb)
  | Infinity sa, Fin y =>
      if Qeq_bool y 0 then NaN else Infinity (xorb sa (Qlt_bool y 0))
  | Fin x, Infinity sb =>
      if Qeq_bool x 0 then NaN else Infinity (xorb (Qlt_bool x 0) sb)
  | Fin x, Fin y => Fin (x * y)
  end.

Definition PI : number := Fin (314159 # 100000).
Definition E : number := Fin (271828 # 100000).

Definition calcularAreaCirculo (raio : number) : number :=
  mul (mul PI raio) raio.

Definition calcularPerimetroCirculo (raio : number) : number :=
  mul (mul (of_Z 2) PI) raio.

Definition maximo (a b : number) : number := if gt a b then a else b.

Definition minimo (a b : number) : number := if lt a b then a else b.

End MathUtils.

(** ** Regular expressions and string helpers of the runtime *)

Module RegExp.

(** The patterns the programs use: classes of code units, sequences,
    alternatives and repetitions.  [Vazio] matches nothing; it only
    arises while matching. *)
Inductive regex : Type :=
  | Vazio
  | Eps
  | Classe (p : N -> bool)
  | Seq (r1 r2 : regex)
  | Alt (r1 r2 : regex)
  | Estrela (r : regex).

(** [r+] *)
Definition Mais (r : regex) : regex := Seq r (Estrela r).

(** The strings a pattern matches from end to end. *)
Inductive casa : regex -> jsstring -> Prop :=
  | casa_eps : casa Eps []
  | casa_classe p c : p c = true -> casa (Classe p) [c]
  | casa_seq r1 r2 s1 s2 :
      casa r1 s1 -> casa r2 s2 -> casa (Seq r1 r2) (s1 ++ s2)
  | casa_alt_l r1 r2 s : casa r1 s -> casa (Alt r1 r2) s
  | casa_alt_r r1 r2 s : casa r2 s -> casa (Alt r1 r2) s
  | casa_estrela_nil r : casa (Estrela r) []
  | casa_estrela_mais r s1 s2 :
      casa r s1 -> casa (Estrela r) s2 -> casa (Estrela r) (s1 ++ s2).

(** Matching by derivatives: [deriv c r] matches what [r] matches after a
    leading [c]. *)
Fixpoint nullable (r : regex) : bool :=
  match r with
  | Vazio => false
  | Eps => true
  | Classe _ => false
  | Seq r1 r2 => nullable r1 && nullable r2
  | Alt r1 r2 => nullable r1 || nullable r2
  | Estrela _ => true
  end.

Fixpoint deriv (c : N) (r : regex) : regex :=
  match r with
  | Vazio => Vazio
  | Eps => Vazio
  | Classe p => if p c then Eps else Vazio
  | Seq r1 r2 =>
      if nullable r1
      then Alt (Seq (deriv c r1) r2) (deriv c r2)
      else Seq (deriv c r1) r2
  | Alt r1 r2 => Alt (deriv c r1) (deriv c r2)
  | Estrela r1 => Seq (deriv c r1) (Estrela r1)
  end.

Definition aceita (r : regex) (s : jsstring) : bool :=
  nullable (fold_left (fun r c => deriv c r) s r).

(** A pattern literal [/body/], with [^] in front or [$] behind or
    neither. *)
Record pattern : Type := {
  inicio : bool;
  corpo : regex;
  fim : bool
}.

Definition qualquer : regex := Classe (fun _ => true).

(** [RegExp.prototype.test]: some part of the string matches the body; an
    anchor pins that part to an end of the string. *)
Definition test (pat : pattern) (s : jsstring) : bool :=
  aceita
    (Seq (if inicio pat then Eps else Estrela qualquer)
       (Seq (corpo pat) (if fim pat then Eps else Estrela qualquer)))
    s.

End RegExp.

Module JSString.

(** [String.prototype.split] with a separator of one code unit: the
    pieces between the separators, at least one piece. *)
Fixpoint split (sep : N) (s : jsstring) : list jsstring :=
  match s with
  | [] => [[]]
  | c :: s' =>
      if (c =? sep)%N then [] :: split sep s'
      else
        match split sep s' with
        | p :: ps => (c :: p) :: ps
        | [] => [[c]]
        end
  end.

(** [String.prototype.includes] with a needle of one code unit. *)
Definition includes (c : N) (s : jsstring) : bool := existsb (N.eqb c) s.

(** The values that the [&&] chains of [ValidadorEmail] pass around. *)
Inductive value : Type :=
  | VUndefined
  | VString (s : jsstring)
  | VBoolean (b : bool).

(** [ToBoolean]: [undefined] and the empty string are falsy. *)
Definition truthy (v : value) : bool :=
  match v with
  | VUndefined => false
  | VString s => negb (bool_decide (s = []))
  | VBoolean b => b
  end.

(** [a && b] answers [a] when [a] is falsy and [b] otherwise. *)
Definition land (a b : value) : value := if truthy a then b else a.

End JSString.

(** ** Cohesion: class [ValidadorEmail] *)

Module ValidadorEmail.
Import RegExp JSString.

(** The class [[^\s@]]. *)
Definition naoEspacoNemArroba (c : N) : bool :=
  negb (isWhiteSpace c || (c =? 64)%N).

(** [/^[^\s@]+@[^\s@]+\.[^\s@]+$/] *)
Definition regexFormato : pattern :=
  {| inicio := true;
     corpo :=
       Seq (Mais (Classe naoEspacoNemArroba))
         (Seq (Classe (N.eqb 64))
            (Seq (Mais (Classe naoEspacoNemArroba))
               (Seq (Classe (N.eqb 46))
                  (Mais (Classe naoEspacoNemArroba)))));
     fim := true |}.

(** The class of [caracteresProibidos]: the code units of
    [< > ( ) [ ] \ , ; :], white space, [@] and the double quote. *)
Definition proibido (c : N) : bool :=
  ((c =? 60) || (c =? 62) || (c =? 40) || (c =? 41) || (c =? 91)
   || (c =? 93) || (c =? 92) || (c =? 44) || (c =? 59) || (c =? 58)
   || isWhiteSpace c || (c =? 64) || (c =? 34))%N.

Definition caracteresProibidos : pattern :=
  {| inicio := false; corpo := Classe proibido; fim := false |}.

Definition temFormatoValido (email : jsstring) : bool :=
  test regexFormato email.

(** [email.split('@')[1]] is [undefined] when the string has no [@]; the
    chain [dominio && dominio.length > 0 && dominio.includes('.')] then
    stops at it, and otherwise answers the first falsy operand or the
    last one. *)
Definition temDominioValido (email : jsstring) : value :=
  match split 64 email !! 1%nat with
  | None => VUndefined
  | Some dominio =>
      land (land (VString dominio) (VBoolean (0 <? length dominio)%nat))
        (VBoolean (includes 46 dominio))
  end.

(** [email.split('@')[0]] always exists. *)
Definition parteLocal (email : jsstring) : jsstring :=
  match split 64 email with
  | p :: _ => p
  | [] => []
  end.

Definition temCaracteresValidos (email : jsstring) : bool :=
  negb (test caracteresProibidos (parteLocal email)).

Definition validar (email : jsstring) : value :=
  land (land (VBoolean (temFormatoValido email)) (temDominioValido email))
    (VBoolean (temCaracteresValidos email)).

(** The message reads: Email inv['a]lido *)
Definition mensagemEmail : jsstring :=
  lit "Email inv" ++ [225%N] ++ lit "lido".

Definition extrairDominio (email : jsstring) : completion value :=
  if negb (truthy (validar email)) then Throw (Error mensagemEmail)
  else
    Normal (match split 64 email !! 1%nat with
            | Some dominio => VString dominio
            | None => VUndefined
            end).

(** An address of the shape [local@name.suffix]: three parts that are not
    empty; [name] and [suffix] hold no white space and no [@]. *)
Definition comum (c : N) : Prop := naoEspacoNemArroba c = true.

Definition forma (permitido : N -> Prop) (email : jsstring) : Prop :=
  exists l n s : jsstring,
    email = l ++ [64%N] ++ n ++ [46%N] ++ s
    /\ l <> [] /\ n <> [] /\ s <> []
    /\ Forall permitido l /\ Forall comum n /\ Forall comum s.

End ValidadorEmail.

(** * Verification *)

(** ** The number model *)

Section NumberFacts.

Lemma Qlt_bool_iff (x y : Q) : Qlt_bool x y = true <-> (x < y)%Q.
Proof.
  unfold Qlt_bool. rewrite negb_true_iff.
  destruct (Qle_bool y x) eqn:E.
  - apply Qle_bool_iff in E. split; [discriminate | intros H; lra].
  - split; [intros _ | reflexivity].
    destruct (Qlt_le_dec x y) as [H | H]; [exact H |].
    apply Qle_bool_iff in H. congruence.
Qed.

(** [Number.isInteger] holds exactly of the finite values that equal an
    integer. *)
Lemma isInteger_spec (a : number) :
  isInteger a = true <-> exists (q : Q) (z : Z), a = Fin q /\ (q == inject_Z z)%Q.
Proof.
  split.
  - destruct a as [| s | [n d]]; simpl; try discriminate.
    intros H. apply Z.eqb_eq in H.
    exists (n # d)%Q, (n / Zpos d)%Z. split; [reflexivity |].
    unfold Qeq, inject_Z. simpl.
    pose proof (Z.div_mod n (Zpos d)) as D. lia.
  - intros (q & z & -> & E). destruct q as [n d]. simpl.
    unfold Qeq, inject_Z in E. simpl in E.
    apply Z.eqb_eq. rewrite Z.mul_1_r in E. subst n.
    apply Z.mod_mul. lia.
Qed.

End NumberFacts.

(** ** [ContadorUsuarios]: validation and the class-level counters *)

Section ContadorUsuariosFacts.
Import ContadorUsuarios.

(** The boolean validation decides membership in the range. *)
Lemma validarIdade_spec (idade : number) :
  validarIdade idade = true <-> idadeNoIntervalo idade.
Proof.
  unfold validarIdade, idadeNoIntervalo, ge, IDADE_MINIMA, IDADE_MAXIMA, of_Z.
  rewrite andb_true_iff. split.
  - destruct idade as [| s | q]; simpl.
    + intros [H _]; discriminate.
    + destruct s; simpl; intros [H1 H2]; discriminate.
    + intros [H1 H2]. apply Qle_bool_iff in H1, H2.
      exists q. auto.
  - intros (q & -> & H1 & H2). simpl.
    split; apply Qle_bool_iff; assumption.
Qed.

Lemma validarIdade_false (idade : number) :
  validarIdade idade = false <-> ~ idadeNoIntervalo idade.
Proof.
  rewrite <- validarIdade_spec. destruct (validarIdade idade); split;
    congruence.
Qed.

Lemma add_of_Z (a b : Z) : add (of_Z a) (of_Z b) = of_Z (a + b).
Proof.
  unfold of_Z, add, inject_Z, Qplus. simpl. do 2 f_equal. lia.
Qed.

(** In every reachable state the counter is a natural number and the next
    id is one more. *)
Lemma reachable_counts (st : statics) :
  reachable st ->
  exists n : Z, (0 <= n)%Z /\ totalUsuarios st = of_Z n
                /\ proximoId st = of_Z (n + 1).
Proof.
  induction 1 as [| nome idade st _ (n & Hn & Ht & Hp) | st _ _].
  - exists 0%Z. repeat split; lia.
  - unfold constructor. destruct (validarIdade idade); simpl.
    + exists (n + 1)%Z. rewrite Ht, Hp, !add_of_Z. repeat split; lia.
    + exists n. auto.
  - exists 0%Z. repeat split; lia.
Qed.

(** A rejected construction leaves the class-level fields as they were. *)
Lemma constructor_rejects (nome : jsstring) (idade : number) (st : statics) :
  ~ idadeNoIntervalo idade ->
  constructor nome idade st = (Throw (Error mensagemIdade), st).
Proof.
  intros H. apply validarIdade_false in H. unfold constructor.
  now rewrite H.
Qed.

Lemma tentativas_rejected (args : list (jsstring * number)) (st : statics) :
  Forall (fun a => ~ idadeNoIntervalo (snd a)) args ->
  tentativas args st = st.
Proof.
  unfold tentativas. induction 1 as [| [nome idade] args H _ IH]; simpl.
  - reflexivity.
  - rewrite constructor_rejects by exact H. exact IH.
Qed.

(** C1. Constructing a [ContadorUsuarios] with an age outside the range
    from 18 to 120 (both included) throws the error that names the bounds
    and leaves [totalUsuarios] and [proximoId] unchanged; with an age
    inside the range it returns an object and [totalUsuarios] grows by
    exactly one. *)
Theorem constructor_valida_idade
    (st : statics) (nome : jsstring) (idade : number) :
  reachable st ->
  (~ idadeNoIntervalo idade ->
     constructor nome idade st = (Throw (Error mensagemIdade), st))
  /\ (idadeNoIntervalo idade ->
      exists (u : instance) (st' : statics) (n : Z),
        constructor nome idade st = (Normal u, st')
        /\ getTotalUsuarios st = of_Z n
        /\ getTotalUsuarios st' = of_Z (n + 1)).
Proof.
  intros Hst. split.
  - apply constructor_rejects.
  - intros Hin. apply validarIdade_spec in Hin.
    destruct (reachable_counts st Hst) as (n & _ & Ht & _).
    unfold constructor. rewrite Hin. simpl.
    eexists _, _, n. split; [reflexivity |].
    unfold getTotalUsuarios. simpl. rewrite Ht, add_of_Z. auto.
Qed.

Lemma constructor_valida_idade_witness :
  constructor (lit "Crianca") (of_Z 15) initial
    = (Throw (Error mensagemIdade), initial)
  /\ exists (u : instance) (st' : statics) (n : Z),
       constructor (lit "Joao") (of_Z 25) initial = (Normal u, st')
       /\ getTotalUsuarios initial = of_Z n
       /\ getTotalUsuarios st' = of_Z (n + 1).
Proof.
  split.
  - apply (constructor_valida_idade initial (lit "Crianca") (of_Z 15)
             reach_initial).
    intros (q & E & H1 & H2). injection E as <-. vm_compute in H1.
    apply H1. reflexivity.
  - apply (constructor_valida_idade initial (lit "Joao") (of_Z 25)
             reach_initial).
    exists (inject_Z 25). repeat split; vm_compute; discriminate.
Defined.

(** C2. From any state of the class-level fields, [resetarContador] sets
    [totalUsuarios] to zero and [proximoId] to one, and the next
    construction that succeeds, whatever rejected attempts come before it,
    gets the id one. *)
Theorem resetarContador_restarts
    (st : statics) (rejeitadas : list (jsstring * number))
    (nome : jsstring) (idade : number) :
  Forall (fun a => ~ idadeNoIntervalo (snd a)) rejeitadas ->
  idadeNoIntervalo idade ->
  totalUsuarios (resetarContador st) = of_Z 0
  /\ proximoId (resetarContador st) = of_Z 1
  /\ exists (u : instance) (st' : statics),
       constructor nome idade (tentativas rejeitadas (resetarContador st))
         = (Normal u, st')
       /\ getId u = of_Z 1.
Proof.
  intros Hrej Hin. repeat split.
  rewrite tentativas_rejected by exact Hrej.
  apply validarIdade_spec in Hin. unfold constructor. rewrite Hin. simpl.
  eexists _, _. split; reflexivity.
Qed.

Lemma resetarContador_restarts_witness :
  totalUsuarios (resetarContador (tentativas [(lit "Joao", of_Z 25); (lit "Maria", of_Z 30)] initial)) = of_Z 0
  /\ proximoId (resetarContador (tentativas [(lit "Joao", of_Z 25); (lit "Maria", of_Z 30)] initial)) = of_Z 1
  /\ exists (u : instance) (st' : statics),
       constructor (lit "Pedro") (of_Z 18)
         (tentativas [(lit "Crianca", of_Z 15)]
            (resetarContador (tentativas [(lit "Joao", of_Z 25); (lit "Maria", of_Z 30)] initial)))
         = (Normal u, st')
       /\ getId u = of_Z 1.
Proof.
  apply (resetarContador_restarts
           (tentativas [(lit "Joao", of_Z 25); (lit "Maria", of_Z 30)] initial)
           [(lit "Crianca", of_Z 15)] (lit "Pedro") (of_Z 18)).
  - constructor; [| constructor]. simpl.
    intros (q & E & H1 & H2). injection E as <-. vm_compute in H1.
    apply H1. reflexivity.
  - exists (inject_Z 18). repeat split; vm_compute; discriminate.
Defined.

(** The run of the source: three users, a rejected fourth, then the
    reset. *)
Example tres_usuarios :
  let st2 := tentativas [(lit "Joao", of_Z 25); (lit "Maria", of_Z 30)]
               initial in
  let st3 := snd (criarUsuarioAdulto (lit "Pedro") st2) in
  fst (criarUsuarioAdulto (lit "Pedro") st2)
  = Normal {| id := of_Z 3; nome := lit "Pedro"; idade := of_Z 18 |}
  /\ getTotalUsuarios st3 = of_Z 3
  /\ constructor (lit "Crianca") (of_Z 15) st3
     = (Throw (Error (lit "Idade deve estar entre 18 e 120 anos")), st3)
  /\ getTotalUsuarios (resetarContador st3) = of_Z 0.
Proof. vm_compute. repeat split; reflexivity. Qed.

End ContadorUsuariosFacts.

(** ** [Pessoa]: the validated and normalised accessors *)

Section PessoaFacts.
Import Pessoa.

Lemma lt_zero_spec (v : number) : lt v (of_Z 0) = true <-> negativo v.
Proof.
  unfold negativo, of_Z. split.
  - destruct v as [| [|] | q]; simpl; try discriminate.
    + auto.
    + intros H. apply Qlt_bool_iff in H. right. exists q. auto.
  - intros [-> | (q & -> & H)]; simpl; [reflexivity |].
    apply Qlt_bool_iff. exact H.
Qed.

Lemma isInteger_inteiro (v : number) : isInteger v = true <-> inteiro v.
Proof. apply isInteger_spec. Qed.

(** The setter's guard fires exactly on the values that are negative or
    not integers. *)
Lemma set_idade_guard (valor : number) :
  negb (isInteger valor) || lt valor (of_Z 0) = true
  <-> negativo valor \/ ~ inteiro valor.
Proof.
  rewrite orb_true_iff, negb_true_iff, lt_zero_spec, <- isInteger_inteiro.
  destruct (isInteger valor); split; intros [H | H]; auto; try discriminate.
  now contradiction H.
Qed.

(** C4. Assigning to [idade] a value that is negative or is not an integer
    throws the error that names the constraint, and the object is left as
    it was: reading [idade] afterwards gives the age it held before. *)
Theorem set_idade_rejeita
    (p : instance) (anterior valor : number) :
  get_idade p = Some anterior ->
  negativo valor \/ ~ inteiro valor ->
  exists p' : instance,
    set_idade valor p = (Throw (Error mensagemIdade), p')
    /\ p' = p
    /\ get_idade p' = Some anterior.
Proof.
  intros Hage Hbad. apply set_idade_guard in Hbad.
  exists p. unfold set_idade. rewrite Hbad. auto.
Qed.

Lemma set_idade_rejeita_witness :
  exists p' : instance,
    set_idade (of_Z (-5)) {| _nome := lit "Renan"; _idade := Some (of_Z 31) |}
      = (Throw (Error mensagemIdade), p')
    /\ p' = {| _nome := lit "Renan"; _idade := Some (of_Z 31) |}
    /\ get_idade p' = Some (of_Z 31).
Proof.
  apply (set_idade_rejeita
           {| _nome := lit "Renan"; _idade := Some (of_Z 31) |}
           (of_Z 31) (of_Z (-5))).
  - reflexivity.
  - left. right. exists (inject_Z (-5)). split; reflexivity.
Defined.

(** What [trimStart] removes is white space, and what it leaves does not
    start with white space. *)
Lemma trimStart_spec (s : jsstring) :
  exists pre : jsstring,
    s = pre ++ trimStart s
    /\ Forall (fun c => isWhiteSpace c = true) pre
    /\ limpoNoInicio (trimStart s).
Proof.
  induction s as [| c s (pre & E & Hpre & Hclean)]; simpl.
  - exists []. repeat split; constructor.
  - destruct (isWhiteSpace c) eqn:Hc.
    + exists (c :: pre). simpl. rewrite <- E. repeat split; auto.
    + exists []. simpl. repeat split; auto.
Qed.

Lemma limpoNoInicio_prefix (t u : jsstring) :
  limpoNoInicio (t ++ u) -> limpoNoInicio t.
Proof. destruct t; simpl; auto. Qed.

Lemma Forall_rev_ws (l : jsstring) :
  Forall (fun c => isWhiteSpace c = true) l ->
  Forall (fun c => isWhiteSpace c = true) (rev l).
Proof.
  intros H. apply List.Forall_forall. intros x Hx.
  apply List.in_rev in Hx.
  exact (proj1 (List.Forall_forall _ l) H x Hx).
Qed.

(** [trim] strips the white space around a string, and nothing else. *)
Lemma trim_aparado (s : jsstring) : aparado s (trim s).
Proof.
  unfold aparado, trim, trimEnd.
  destruct (trimStart_spec s) as (pre & E1 & Hpre & Hc1).
  destruct (trimStart_spec (rev (trimStart s))) as (fus & E2 & Hfus & Hc2).
  set (t := rev (trimStart (rev (trimStart s)))) in *.
  assert (Et : trimStart s = t ++ rev fus).
  { rewrite <- (rev_involutive (trimStart s)), E2, rev_app_distr.
    reflexivity. }
  exists pre, (rev fus). repeat split.
  - rewrite <- Et. exact E1.
  - exact Hpre.
  - apply Forall_rev_ws, Hfus.
  - apply (limpoNoInicio_prefix t (rev fus)). rewrite <- Et. exact Hc1.
  - unfold t. rewrite rev_involutive. exact Hc2.
Qed.

(** C6. The name read back from a [Pessoa] is the string it was given,
    through the constructor or through the [nome] setter, with the
    surrounding white space trimmed. *)
Theorem nome_aparado
    (nome valor : jsstring) (idade : number) (p : instance) :
  constructor nome idade = Normal p ->
  (get_nome p = trim nome /\ aparado nome (get_nome p))
  /\ (get_nome (set_nome valor p) = trim valor
      /\ aparado valor (get_nome (set_nome valor p))).
Proof.
  unfold constructor, set_idade. simpl.
  destruct (negb (isInteger idade) || lt idade (of_Z 0)); [discriminate |].
  intros [= <-]. simpl. repeat split; try apply trim_aparado.
Qed.

Lemma nome_aparado_witness :
  (get_nome {| _nome := lit "Renan"; _idade := Some (of_Z 30) |}
     = trim (lit "  Renan  ")
   /\ aparado (lit "  Renan  ")
        (get_nome {| _nome := lit "Renan"; _idade := Some (of_Z 30) |}))
  /\ (get_nome (set_nome ([9; 160] ++ lit "Ana Maria" ++ [10; 65279])%N
                  {| _nome := lit "Renan"; _idade := Some (of_Z 30) |})
        = trim ([9; 160] ++ lit "Ana Maria" ++ [10; 65279])%N
      /\ aparado ([9; 160] ++ lit "Ana Maria" ++ [10; 65279])%N
           (get_nome (set_nome ([9; 160] ++ lit "Ana Maria" ++ [10; 65279])%N
                        {| _nome := lit "Renan"; _idade := Some (of_Z 30) |}))).
Proof.
  apply (nome_aparado (lit "  Renan  ")
           ([9; 160] ++ lit "Ana Maria" ++ [10; 65279])%N (of_Z 30)).
  reflexivity.
Defined.

(** The constructor example of the source: the name is read back trimmed. *)
Example pessoa_renan :
  constructor (lit "  Renan  ") (of_Z 30)
  = Normal {| _nome := lit "Renan"; _idade := Some (of_Z 30) |}.
Proof. reflexivity. Qed.

End PessoaFacts.

(** ** The singleton classes *)

Module SingletonFacts.
Import Singleton.

(** The discipline follows from four facts about a class. *)
Section Generic.
Variable C : classe.

Hypothesis inicial_sem_instancia : instanciaDe C (inicial C) = None.
Hypothesis passo_acesso :
  forall st o, ehAcesso C o = true -> passo C st o = snd (acessar C st).
Hypothesis passo_outro :
  forall st o, ehAcesso C o = false ->
    instanciaDe C (passo C st o) = instanciaDe C st.
Hypothesis acessar_cria :
  forall st, instanciaDe C st = None ->
    (fst (acessar C st) ∉ vivos C st)
    /\ (fst (acessar C st) ∈ vivos C (snd (acessar C st)))
    /\ instanciaDe C (snd (acessar C st)) = Some (fst (acessar C st)).
Hypothesis acessar_guardada :
  forall st l, instanciaDe C st = Some l -> acessar C st = (l, st).

Lemma acessar_instancia (st : estado C) :
  instanciaDe C (snd (acessar C st)) = Some (fst (acessar C st)).
Proof.
  destruct (instanciaDe C st) as [l |] eqn:E.
  - rewrite (acessar_guardada st l E). exact E.
  - apply (acessar_cria st E).
Qed.

Lemma passo_guardada (st : estado C) (o : operacao C) (l : loc) :
  instanciaDe C st = Some l -> instanciaDe C (passo C st o) = Some l.
Proof.
  intros E. destruct (ehAcesso C o) eqn:Ho.
  - rewrite (passo_acesso st o Ho), (acessar_guardada st l E). exact E.
  - rewrite (passo_outro st o Ho). exact E.
Qed.

Lemma executar_guardada (ops : list (operacao C)) (st : estado C) (l : loc) :
  instanciaDe C st = Some l -> instanciaDe C (executar C ops st) = Some l.
Proof.
  revert st. induction ops as [| o ops IH]; intros st E; simpl.
  - exact E.
  - apply IH, passo_guardada, E.
Qed.

Lemma executar_sem_acesso (ops : list (operacao C)) (st : estado C) :
  forallb (fun o => negb (ehAcesso C o)) ops = true ->
  instanciaDe C (executar C ops st) = instanciaDe C st.
Proof.
  revert st. induction ops as [| o ops IH]; intros st H; simpl in *.
  - reflexivity.
  - apply andb_true_iff in H as [Ho Hops]. apply negb_true_iff in Ho.
    rewrite (IH _ Hops). apply passo_outro, Ho.
Qed.

Lemma unicaInstancia_intro : unicaInstancia C.
Proof.
  unfold unicaInstancia. split; [exact inicial_sem_instancia |].
  split.
  { intros ops H. rewrite (executar_sem_acesso ops _ H).
    exact inicial_sem_instancia. }
  split.
  { intros st E. destruct (acessar_cria st E) as (? & ? & _). auto. }
  split.
  { intros st ops. apply executar_guardada, acessar_instancia. }
  intros pre mid.
  set (st := executar C pre (inicial C)).
  pose proof (executar_guardada mid _ _ (acessar_instancia st)) as E.
  rewrite (acessar_guardada _ _ E). reflexivity.
Qed.

End Generic.

Ltac abrir_metodos :=
  intros; simpl in *;
  repeat match goal with
         | o : ConfiguracaoApp.op |- _ => destruct o
         | o : Logger.op |- _ => destruct o
         | o : ContadorGlobal.op |- _ => destruct o
         end;
  simpl in *; try discriminate; try reflexivity.

Lemma ConfiguracaoApp_unica : unicaInstancia ConfiguracaoApp.
Proof.
  apply unicaInstancia_intro.
  - reflexivity.
  - abrir_metodos.
  - abrir_metodos.
    + unfold ConfiguracaoApp.setConfiguracao.
      destruct (ConfiguracaoApp.objetos st !! this); reflexivity.
    + unfold ConfiguracaoApp.listarConfiguracoes.
      destruct (ConfiguracaoApp.objetos st !! this); reflexivity.
  - intros st E. simpl in *. unfold ConfiguracaoApp.getInstance.
    rewrite E. simpl. split; [apply is_fresh |].
    split; [| reflexivity]. rewrite dom_insert_L. set_solver.
  - intros st l E. simpl in *. unfold ConfiguracaoApp.getInstance.
    now rewrite E.
Qed.

Lemma Logger_unica : unicaInstancia Logger.
Proof.
  apply unicaInstancia_intro.
  - reflexivity.
  - abrir_metodos.
  - abrir_metodos;
      unfold Logger.info, Logger.warn, Logger.error, Logger.log,
             Logger.getLogs, Logger.limparLogs;
      destruct (Logger.objetos st !! this) as [o |]; try reflexivity;
      destruct (Logger.arrays st !! Logger.logs o); reflexivity.
  - intros st E. simpl in *. unfold Logger.getInstance.
    rewrite E. simpl. split; [apply is_fresh |].
    split; [| reflexivity]. rewrite dom_insert_L. set_solver.
  - intros st l E. simpl in *. unfold Logger.getInstance.
    now rewrite E.
Qed.

Lemma ContadorGlobal_unica : unicaInstancia ContadorGlobal.
Proof.
  apply unicaInstancia_intro.
  - reflexivity.
  - abrir_metodos.
  - abrir_metodos;
      unfold ContadorGlobal.incrementar, ContadorGlobal.decrementar,
             ContadorGlobal.resetar;
      destruct (ContadorGlobal.objetos st !! this); reflexivity.
  - intros st E. simpl in *. unfold ContadorGlobal.getInstance.
    rewrite E. simpl. split; [apply is_fresh |].
    split; [| reflexivity]. rewrite dom_insert_L. set_solver.
  - intros st l E. simpl in *. unfold ContadorGlobal.getInstance.
    now rewrite E.
Qed.

(** C3. Each of [ConfiguracaoApp], [Logger] and [ContadorGlobal] follows
    the singleton discipline: no instance exists before the first
    [getInstance], which creates one; from then on the class keeps that
    reference, whatever operations run, and every later [getInstance]
    answers it. *)
Theorem getInstance_unica_instancia :
  unicaInstancia ConfiguracaoApp
  /\ unicaInstancia Logger
  /\ unicaInstancia ContadorGlobal.
Proof.
  split; [exact ConfiguracaoApp_unica |].
  split; [exact Logger_unica | exact ContadorGlobal_unica].
Qed.

(** The run of the source: two accesses, one reference. *)
Example config1_config2 :
  let '(config1, st1) := ConfiguracaoApp.getInstance ConfiguracaoApp.initial in
  let '(config2, st2) := ConfiguracaoApp.getInstance st1 in
  config1 = config2
  /\ ConfiguracaoApp.getConfiguracao config2 (lit "theme")
       (snd (ConfiguracaoApp.setConfiguracao config1 (lit "theme")
               (ConfiguracaoApp.AString (lit "light")) st2))
     = Normal (Some (ConfiguracaoApp.AString (lit "light"))).
Proof. vm_compute. split; reflexivity. Qed.

(** Likewise for the counter: what one reference increments, the other
    reads. *)
Example contador1_contador2 :
  let '(contador1, st1) := ContadorGlobal.getInstance ContadorGlobal.initial in
  let '(contador2, st2) := ContadorGlobal.getInstance st1 in
  let st3 := ContadorGlobal.exec
               [ContadorGlobal.Incrementar contador1;
                ContadorGlobal.Incrementar contador1;
                ContadorGlobal.Incrementar contador1] st2 in
  contador1 = contador2
  /\ ContadorGlobal.getValor contador1 st2 = Normal (of_Z 0)
  /\ ContadorGlobal.getValor contador2 st3 = Normal (of_Z 3)
  /\ fst (ContadorGlobal.decrementar contador2 st3) = Normal (of_Z 2).
Proof. vm_compute. repeat split; reflexivity. Qed.

End SingletonFacts.

(** ** [Logger]: the array that [getLogs] hands out *)

Section LoggerFacts.
Import Logger.

(** Every state of a run is well formed: arrays are never removed, and a
    [logs] field is only ever pointed at an array made on the spot. *)
Lemma step_bemFormado (st : state) (o : op) :
  bemFormado st -> bemFormado (step st o).
Proof.
  intros Hwf.
  assert (Hgrow : forall (this : loc) (a : loc) (xs : list jsstring) st',
             objetos st' = objetos st ->
             arrays st' = <[a := xs]> (arrays st) -> bemFormado st').
  { intros this a xs st' Ho Ha l ob Hl. rewrite Ho in Hl. rewrite Ha.
    destruct (decide (a = logs ob)) as [-> | Hne].
    - rewrite lookup_insert_eq. eauto.
    - rewrite lookup_insert_ne by exact Hne. eapply Hwf, Hl. }
  assert (Hnew : forall (this : loc) (a : loc) st',
             objetos st' = <[this := {| logs := a |}]> (objetos st) ->
             arrays st' = <[a := []]> (arrays st) -> bemFormado st').
  { intros this a st' Ho Ha l ob Hl. rewrite Ho in Hl. rewrite Ha.
    destruct (decide (this = l)) as [-> | Hne].
    - rewrite lookup_insert_eq in Hl. injection Hl as <-. simpl.
      rewrite lookup_insert_eq. eauto.
    - rewrite lookup_insert_ne in Hl by exact Hne.
      destruct (decide (a = logs ob)) as [-> | Hne'].
      + rewrite lookup_insert_eq. eauto.
      + rewrite lookup_insert_ne by exact Hne'. eapply Hwf, Hl. }
  destruct o as [| this n m t | this m t | this m t | this m t
                 | this | this | this]; simpl;
    unfold getInstance, constructor, info, warn, error, log, getLogs,
      limparLogs;
    try exact Hwf.
  - destruct (instancia st); simpl; [exact Hwf |].
    eapply Hnew; reflexivity.
  - destruct (objetos st !! this) as [ob |]; [| exact Hwf].
    destruct (arrays st !! logs ob); [| exact Hwf].
    eapply (Hgrow this); reflexivity.
  - destruct (objetos st !! this) as [ob |]; [| exact Hwf].
    destruct (arrays st !! logs ob); [| exact Hwf].
    eapply (Hgrow this); reflexivity.
  - destruct (objetos st !! this) as [ob |]; [| exact Hwf].
    destruct (arrays st !! logs ob); [| exact Hwf].
    eapply (Hgrow this); reflexivity.
  - destruct (objetos st !! this) as [ob |]; [| exact Hwf].
    destruct (arrays st !! logs ob); [| exact Hwf].
    eapply (Hgrow this); reflexivity.
  - destruct (objetos st !! this) as [ob |]; [| exact Hwf].
    destruct (arrays st !! logs ob); [| exact Hwf].
    eapply (Hgrow this); reflexivity.
  - destruct (objetos st !! this) as [ob |]; [| exact Hwf].
    eapply Hnew; reflexivity.
Qed.

Lemma exec_bemFormado (ops : list op) (st : state) :
  bemFormado st -> bemFormado (exec ops st).
Proof.
  revert st. induction ops as [| o ops IH]; intros st H; simpl.
  - exact H.
  - apply IH, step_bemFormado, H.
Qed.

Lemma initial_bemFormado : bemFormado initial.
Proof. intros l o H. simpl in H. rewrite lookup_empty in H. discriminate. Qed.

(** C9. In a well-formed state, so in every state of a run, [getLogs]
    answers a new array holding the stored entries: the logger and the
    array behind its [logs] field are as before the call, and whatever the
    caller then does to the array it received, later calls of
    [exportarLogs] and [getLogs] answer what they would have answered
    anyway. *)
Theorem getLogs_devolve_copia
    (st : state) (this : loc) (o : instance) (alteradas : list jsstring) :
  bemFormado st ->
  objetos st !! this = Some o ->
  exists (entradas : list jsstring) (r : loc) (st1 : state),
    arrays st !! logs o = Some entradas
    /\ getLogs this st = (Normal r, st1)
    /\ arrays st !! r = None
    /\ r <> logs o
    /\ arrays st1 !! r = Some entradas
    /\ objetos st1 = objetos st
    /\ arrays st1 !! logs o = Some entradas
    /\ exportarLogs this st1 = exportarLogs this st
    /\ exportarLogs this (mutarArray r alteradas st1)
       = Normal (join [10%N] entradas)
    /\ exists (r' : loc) (st2 : state),
         getLogs this (mutarArray r alteradas st1) = (Normal r', st2)
         /\ arrays st2 !! r' = Some entradas
         /\ r' <> r.
Proof.
  intros Hwf Hthis.
  destruct (Hwf this o Hthis) as [entradas Hlogs].
  set (r := fresh (dom (arrays st))).
  assert (Hr : arrays st !! r = None).
  { apply not_elem_of_dom, is_fresh. }
  assert (Hne : r <> logs o) by congruence.
  exists entradas, r,
    {| instancia := instancia st; objetos := objetos st;
       arrays := <[r := entradas]> (arrays st) |}.
  split; [exact Hlogs |].
  split.
  { unfold getLogs. rewrite Hthis, Hlogs. reflexivity. }
  split; [exact Hr |]. split; [exact Hne |].
  split; [simpl; apply lookup_insert_eq |].
  split; [reflexivity |].
  split; [simpl; rewrite lookup_insert_ne by exact Hne; exact Hlogs |].
  split.
  { unfold exportarLogs. simpl. rewrite Hthis.
    rewrite lookup_insert_ne by exact Hne. reflexivity. }
  split.
  { unfold exportarLogs, mutarArray. simpl. rewrite Hthis.
    rewrite !lookup_insert_ne by exact Hne. rewrite Hlogs. reflexivity. }
  unfold getLogs, mutarArray. simpl. rewrite Hthis.
  rewrite !lookup_insert_ne by exact Hne. rewrite Hlogs.
  eexists _, _. split; [reflexivity |]. simpl.
  split; [apply lookup_insert_eq |].
  intros E.
  pose proof (is_fresh (dom (<[r:=alteradas]> (<[r:=entradas]> (arrays st)))))
    as Hf.
  rewrite E in Hf. apply Hf. rewrite !dom_insert_L. set_solver.
Qed.

Lemma getLogs_devolve_copia_witness :
  exists (entradas : list jsstring) (r : loc) (st1 : state),
    arrays doisLogs !! logs {| logs := 1 |} = Some entradas
    /\ getLogs 1 doisLogs = (Normal r, st1)
    /\ arrays doisLogs !! r = None
    /\ r <> logs {| logs := 1 |}
    /\ arrays st1 !! r = Some entradas
    /\ objetos st1 = objetos doisLogs
    /\ arrays st1 !! logs {| logs := 1 |} = Some entradas
    /\ exportarLogs 1 st1 = exportarLogs 1 doisLogs
    /\ exportarLogs 1 (mutarArray r [] st1) = Normal (join [10%N] entradas)
    /\ exists (r' : loc) (st2 : state),
         getLogs 1 (mutarArray r [] st1) = (Normal r', st2)
         /\ arrays st2 !! r' = Some entradas
         /\ r' <> r.
Proof.
  apply (getLogs_devolve_copia doisLogs 1 {| logs := 1 |} []).
  - apply (exec_bemFormado
             [GetInstance; Info 1 (lit "inicio") (lit "T1");
              Warn 1 (lit "debug") (lit "T2")]
             initial initial_bemFormado).
  - vm_compute. reflexivity.
Defined.

(** The entries of that logger, and their export. *)
Example doisLogs_exportados :
  exportarLogs 1 doisLogs
  = Normal (lit "[T1] INFO: inicio" ++ [10%N] ++ lit "[T2] WARN: debug").
Proof. vm_compute. reflexivity. Qed.

End LoggerFacts.

(** ** [Calculadora]: division *)

Section CalculadoraFacts.
Import Calculadora.

Lemma strict_eq_zero (b : number) : strict_eq b (of_Z 0) = true <-> zero b.
Proof.
  unfold zero, of_Z. split.
  - destruct b as [| s | q]; simpl; try discriminate.
    intros H. apply Qeq_bool_iff in H. exists q. auto.
  - intros (q & -> & H). simpl. apply Qeq_bool_iff. exact H.
Qed.

(** C8. Whatever the runtime's division computes, [dividir a b] throws,
    with the error that names the zero divisor, exactly when [b] equals
    zero; for every other [b], [NaN] and the infinities included, it
    returns the quotient [a / b]. *)
Theorem dividir_zero (quociente : number -> number -> number) (a b : number) :
  (throws (dividir quociente a b) = true <-> zero b)
  /\ (zero b -> dividir quociente a b = Throw (Error mensagemDivisao))
  /\ (~ zero b -> dividir quociente a b = Normal (quociente a b)).
Proof.
  pose proof (strict_eq_zero b) as Hz. unfold dividir.
  destruct (strict_eq b (of_Z 0)) eqn:E; simpl.
  - assert (Hb : zero b) by (apply Hz; reflexivity).
    split; [split; auto |].
    split; [reflexivity |].
    intros Hn; contradiction.
  - assert (Hb : ~ zero b).
    { intros Hb. apply Hz in Hb. discriminate. }
    split; [split; [discriminate | intros Hb'; contradiction] |].
    split; [intros Hb'; contradiction |].
    reflexivity.
Qed.

(** Zero in any of its writings is refused; [NaN] is not zero. *)
Example dividir_por_zero (quociente : number -> number -> number) :
  dividir quociente (of_Z 15) (Fin (0 # 7)) = Throw (Error mensagemDivisao)
  /\ dividir quociente (of_Z 15) NaN = Normal (quociente (of_Z 15) NaN).
Proof. split; reflexivity. Qed.

End CalculadoraFacts.

(** ** [ContaBancaria]: deposits, withdrawals and transfers *)

Section ContaBancariaFacts.
Import ContaBancaria.
Local Open Scope metodo_scope.

(** *** The guards *)

Lemma validarValor_spec (v : number) :
  validarValor v = true <-> positivoFinito v.
Proof.
  unfold validarValor, positivoFinito, gt, of_Z. split.
  - destruct v as [| s | q]; simpl.
    + discriminate.
    + rewrite andb_false_r. discriminate.
    + rewrite andb_true_r. intros H. apply Qlt_bool_iff in H.
      exists q. auto.
  - intros (q & -> & H). simpl. rewrite andb_true_r.
    apply Qlt_bool_iff. exact H.
Qed.

Lemma validarValor_false (v : number) :
  validarValor v = false <-> ~ positivoFinito v.
Proof.
  rewrite <- validarValor_spec. destruct (validarValor v); split;
    congruence.
Qed.


Lemma add_naoNegativo (s v : number) :
  naoNegativo s -> positivoFinito v -> naoNegativo (add s v).
Proof.
  intros [-> | (x & -> & Hx)] (q & -> & Hq); simpl.
  - left. reflexivity.
  - right. exists (x + q)%Q. split; [reflexivity | lra].
Qed.

Lemma sub_naoNegativo (s v : number) :
  ge s v = true -> positivoFinito v -> naoNegativo (sub s v).
Proof.
  intros Hge (q & -> & Hq). unfold ge, sub in *.
  destruct s as [| [|] | x]; simpl in *; try discriminate.
  - left. reflexivity.
  - right. apply Qle_bool_iff in Hge. exists (x + - q)%Q.
    split; [reflexivity | lra].
Qed.

(** *** What each method does to the store *)

Lemma depositar_aceita (this : loc) (v : number) (h : heap) (c : instance) :
  h !! this = Some c -> positivoFinito v ->
  depositar this v h
  = (Normal tt, <[this := comSaldo c (add (saldo c) v)]> h).
Proof.
  intros Hc Hv. apply validarValor_spec in Hv.
  unfold depositar, gravarSaldo, registrarOperacao, bind, obter, ret.
  rewrite Hc, Hv. simpl. rewrite Hc, lookup_insert_eq. reflexivity.
Qed.

Lemma depositar_rejeita (this : loc) (v : number) (h : heap) (c : instance) :
  h !! this = Some c -> ~ positivoFinito v ->
  depositar this v h = (Throw (Error (lit "Valor deve ser positivo")), h).
Proof.
  intros Hc Hv. apply validarValor_false in Hv.
  unfold depositar, bind, obter, throw. rewrite Hc, Hv. reflexivity.
Qed.

Lemma sacar_aceita (this : loc) (v : number) (h : heap) (c : instance) :
  h !! this = Some c -> positivoFinito v -> ge (saldo c) v = true ->
  sacar this v h
  = (Normal tt, <[this := comSaldo c (sub (saldo c) v)]> h).
Proof.
  intros Hc Hv Hge. apply validarValor_spec in Hv.
  unfold sacar, temSaldoSuficiente, gravarSaldo, registrarOperacao, bind,
    obter, ret.
  rewrite Hc, Hv, Hge. simpl. rewrite Hc, lookup_insert_eq. reflexivity.
Qed.

Lemma sacar_rejeita (this : loc) (v : number) (h : heap) (c : instance) :
  h !! this = Some c -> ~ positivoFinito v \/ ge (saldo c) v = false ->
  exists msg : jsstring, sacar this v h = (Throw (Error msg), h).
Proof.
  intros Hc Hbad.
  unfold sacar, temSaldoSuficiente, bind, obter, throw. rewrite Hc.
  destruct (validarValor v) eqn:Hv; simpl.
  - destruct Hbad as [Hn | Hge].
    + apply validarValor_false in Hn. congruence.
    + rewrite Hge. simpl. eauto.
  - eauto.
Qed.

Lemma metodo_sem_conta (this : loc) (v : number) (h : heap) :
  h !! this = None ->
  depositar this v h = (Throw TypeError, h)
  /\ sacar this v h = (Throw TypeError, h).
Proof.
  intros Hc. unfold depositar, sacar, bind, obter. rewrite Hc. auto.
Qed.

(** Every call either leaves the store alone or rewrites the balance of
    [this] as the method says. *)
Lemma depositar_casos (this : loc) (v : number) (h : heap) :
  snd (depositar this v h) = h
  \/ exists c : instance,
       h !! this = Some c /\ positivoFinito v
       /\ depositar this v h
          = (Normal tt, <[this := comSaldo c (add (saldo c) v)]> h).
Proof.
  destruct (h !! this) as [c |] eqn:Hc.
  - destruct (validarValor v) eqn:Hv.
    + apply validarValor_spec in Hv. right. exists c.
      auto using depositar_aceita.
    + apply validarValor_false in Hv. left.
      now rewrite (depositar_rejeita this v h c Hc Hv).
  - left. now rewrite (proj1 (metodo_sem_conta this v h Hc)).
Qed.

Lemma sacar_casos (this : loc) (v : number) (h : heap) :
  (throws (fst (sacar this v h)) = true /\ snd (sacar this v h) = h)
  \/ exists c : instance,
       h !! this = Some c /\ positivoFinito v /\ ge (saldo c) v = true
       /\ sacar this v h
          = (Normal tt, <[this := comSaldo c (sub (saldo c) v)]> h).
Proof.
  destruct (h !! this) as [c |] eqn:Hc.
  - destruct (validarValor v) eqn:Hv.
    + apply validarValor_spec in Hv.
      destruct (ge (saldo c) v) eqn:Hge.
      * right. exists c. auto using sacar_aceita.
      * left. destruct (sacar_rejeita this v h c Hc (or_intror Hge))
          as (msg & ->). auto.
    + apply validarValor_false in Hv. left.
      destruct (sacar_rejeita this v h c Hc (or_introl Hv)) as (msg & ->).
      auto.
  - left. rewrite (proj2 (metodo_sem_conta this v h Hc)). auto.
Qed.

(** A transfer is a withdrawal followed, if it went through, by a deposit:
    the two closing reads change nothing. *)
Lemma transferir_store (this dest : loc) (v : number) (h : heap) :
  snd (transferir this v dest h)
  = if throws (fst (sacar this v h)) then snd (sacar this v h)
    else snd (depositar dest v (snd (sacar this v h))).
Proof.
  unfold transferir. unfold bind at 1.
  destruct (sacar this v h) as [[[] | e] h1]; simpl; [| reflexivity].
  unfold bind at 1.
  destruct (depositar dest v h1) as [[[] | e] h2]; simpl; [| reflexivity].
  unfold registrarOperacao, bind, obter, ret.
  destruct (h2 !! dest); simpl; [| reflexivity].
  destruct (h2 !! this); reflexivity.
Qed.

(** *** The balance of one account along a run *)

Lemma depositar_preserva (a this : loc) (v : number) (h : heap) :
  saldoNaoNegativo a h -> saldoNaoNegativo a (snd (depositar this v h)).
Proof.
  intros (c & Hc & Hs).
  destruct (depositar_casos this v h) as [-> | (c' & Hc' & Hv & ->)].
  - exists c. auto.
  - simpl. destruct (decide (this = a)) as [-> | Hne].
    + rewrite Hc in Hc'. injection Hc' as <-.
      exists (comSaldo c (add (saldo c) v)).
      rewrite lookup_insert_eq. split; [reflexivity |].
      simpl. apply add_naoNegativo; assumption.
    + exists c. rewrite lookup_insert_ne by exact Hne. auto.
Qed.

Lemma sacar_preserva (a this : loc) (v : number) (h : heap) :
  saldoNaoNegativo a h -> saldoNaoNegativo a (snd (sacar this v h)).
Proof.
  intros (c & Hc & Hs).
  destruct (sacar_casos this v h) as [[_ ->] | (c' & Hc' & Hv & Hge & ->)].
  - exists c. auto.
  - simpl. destruct (decide (this = a)) as [-> | Hne].
    + rewrite Hc in Hc'. injection Hc' as <-.
      exists (comSaldo c (sub (saldo c) v)).
      rewrite lookup_insert_eq. split; [reflexivity |].
      simpl. apply sub_naoNegativo; assumption.
    + exists c. rewrite lookup_insert_ne by exact Hne. auto.
Qed.

Lemma step_preserva (a : loc) (o : op) (h : heap) :
  saldoNaoNegativo a h -> saldoNaoNegativo a (step h o).
Proof.
  intros H. destruct o as [this v | this v | this v dest]; simpl.
  - apply depositar_preserva, H.
  - apply sacar_preserva, H.
  - rewrite transferir_store.
    destruct (throws (fst (sacar this v h))).
    + apply sacar_preserva, H.
    + apply depositar_preserva, sacar_preserva, H.
Qed.

Lemma exec_preserva (a : loc) (ops : list op) (h : heap) :
  saldoNaoNegativo a h -> saldoNaoNegativo a (exec ops h).
Proof.
  revert h. induction ops as [| o ops IH]; intros h H; simpl.
  - exact H.
  - apply IH, step_preserva, H.
Qed.

(** C10. An account built with an initial balance that is not negative
    (the default, zero, is one) keeps a balance that is not negative along
    every sequence of [depositar], [sacar] and [transferir] calls, on this
    account or on any other, whether the calls return or throw. *)
Theorem saldo_nunca_negativo
    (h : heap) (numero nome : jsstring) (saldoInicial : option number)
    (ops : list op) :
  naoNegativo (default (of_Z 0) saldoInicial) ->
  exists c : instance,
    exec ops (snd (constructor numero nome saldoInicial h))
      !! fst (constructor numero nome saldoInicial h) = Some c
    /\ naoNegativo (saldo c).
Proof.
  intros H0. apply exec_preserva. unfold constructor. simpl.
  eexists. rewrite lookup_insert_eq. split; [reflexivity |]. exact H0.
Qed.

Lemma saldo_nunca_negativo_witness :
  exists c : instance,
    exec [Depositar 3 (of_Z 200); Sacar 3 (of_Z 150); Sacar 3 (of_Z 5000);
          Transferir 3 (of_Z 300) 2; Transferir 2 (of_Z 700) 3;
          Transferir 3 (of_Z 10) 3; Depositar 3 (of_Z (-1))]
      (snd (constructor (lit "11111") (lit "Ana") (Some (of_Z 1000)) contas))
      !! fst (constructor (lit "11111") (lit "Ana") (Some (of_Z 1000)) contas)
    = Some c
    /\ naoNegativo (saldo c).
Proof.
  apply (saldo_nunca_negativo contas (lit "11111") (lit "Ana")
           (Some (of_Z 1000))).
  right. exists (inject_Z 1000). split; [reflexivity | discriminate].
Defined.

(** Integers of less than 53 bits are representable. *)
Lemma duplo_of_Z (n : Z) : (Z.abs n < 2 ^ 53)%Z -> duplo (of_Z n).
Proof.
  intros H. exists n, 0%Z. repeat split; try assumption; try lia.
  simpl. ring.
Qed.

(** [2^53 + 1] is not: it is odd and needs 54 bits.  A deposit of one on
    a balance of [2^53] is therefore outside what the exact sum tells
    about the runtime. *)
Lemma dois53_mais_um : ~ duplo (add (of_Z (2 ^ 53)) (of_Z 1)).
Proof.
  rewrite add_of_Z. intros (m & e & Hm & _ & _ & E).
  change (2 ^ 53)%Z with 9007199254740992%Z in *.
  change (2%Q) with (inject_Z 2) in E.
  destruct (Z_le_gt_dec 0 e) as [He | He].
  - rewrite <- (Zpower_Qpower 2 e He), <- inject_Z_mult in E.
    apply (proj1 (inject_Z_injective _ _)) in E.
    destruct (Z.eq_dec e 0%Z) as [-> | Hne].
    + rewrite Z.pow_0_r in E. lia.
    + replace e with (Z.succ (e - 1))%Z in E by lia.
      rewrite Z.pow_succ_r in E by lia.
      set (p := (2 ^ (e - 1))%Z) in E.
      assert (E' : (9007199254740992 + 1 = 2 * (m * p))%Z) by lia.
      lia.
  - assert (Hk : (0 <= - e)%Z) by lia.
    assert (Hp : (0 < 2 ^ (- e))%Z) by (apply Z.pow_pos_nonneg; lia).
    replace e with (- - e)%Z in E by lia.
    rewrite Qpower_opp, <- (Zpower_Qpower 2 (- e)%Z Hk) in E.
    set (p := (2 ^ (- e))%Z) in *.
    assert (E' : (inject_Z ((9007199254740992 + 1) * p) == inject_Z m)%Q).
    { rewrite inject_Z_mult, E. field.
      intros H. apply (proj1 (inject_Z_injective p 0%Z)) in H. lia. }
    apply (proj1 (inject_Z_injective _ _)) in E'. nia.
Qed.






(** The two runs behind it: a negative amount, and an account that
    transfers to itself. *)
Example transferir_menos_cinco :
  transferir 1 (of_Z (-5)) 2 contas
  = (Throw (Error (lit "Valor deve ser positivo")), contas).
Proof. vm_compute. reflexivity. Qed.

Example transferir_para_si :
  fst (transferir 1 (of_Z 300) 1 contas) = Normal tt
  /\ saldoDe 1 (snd (transferir 1 (of_Z 300) 1 contas)) = Some (of_Z 1000).
Proof. vm_compute. split; reflexivity. Qed.

(** The run of the source: 1000 + 200 - 150 - 300 on one side,
    500 + 300 on the other. *)
Example contas_estado_final :
  let h := exec [Depositar 1 (of_Z 200); Sacar 1 (of_Z 150);
                 Transferir 1 (of_Z 300) 2] contas in
  saldoDe 1 h = Some (of_Z 750) /\ saldoDe 2 h = Some (of_Z 800).
Proof. vm_compute. split; reflexivity. Qed.

End ContaBancariaFacts.

(** ** [Animal]: dynamic dispatch *)

Section AnimalFacts.
Import Animal.

Lemma final_app (n s : jsstring) :
  (4 <= length s)%nat -> final (n ++ s) = final s.
Proof.
  intros H. unfold final. rewrite rev_app_distr.
  rewrite firstn_app.
  replace (4 - length (rev s))%nat with 0%nat
    by (rewrite length_rev; lia).
  simpl. apply app_nil_r.
Qed.

(** The sound tells the class, whatever the names. *)
Lemma emitirSom_classe (a b : instance) :
  emitirSom a = emitirSom b -> classeDe a = classeDe b.
Proof.
  intros E. apply (f_equal final) in E.
  destruct a, b; simpl in E; try reflexivity;
    rewrite !final_app in E by (vm_compute; lia);
    vm_compute in E; discriminate.
Qed.

(** C7. Going through the four animals of [animais] in order and calling
    [emitirSom] on each gives the sound of a dog, of a cat, of a cow and
    of a duck, in that order; the four outputs differ from one another,
    and two outputs can only be equal when they come from objects of one
    class. *)
Theorem animais_emitem_sons :
  map classeDe animais = [CCachorro; CGato; CVaca; CPato]
  /\ sons animais
     = [lit "Rex faz: Au au au!"; lit "Mimi faz: Miau miau!";
        lit "Mimosa faz: Muuuu!"; lit "Donald faz: Quack quack!"]
  /\ NoDup (sons animais)
  /\ (forall a b : instance,
        emitirSom a = emitirSom b -> classeDe a = classeDe b).
Proof.
  split; [reflexivity |]. split; [reflexivity |].
  split; [| exact emitirSom_classe].
  apply (NoDup_fmap_1 final). vm_compute.
  repeat (constructor; [rewrite ?list_elem_of_In; simpl; intuition discriminate |]).
  constructor.
Qed.

End AnimalFacts.

(** * Further properties of the code *)

(** ** Comparing numbers *)

Section OrderFacts.

Lemma lt_of_Z (a b : Z) : lt (of_Z a) (of_Z b) = true <-> (a < b)%Z.
Proof.
  unfold of_Z. simpl. rewrite Qlt_bool_iff.
  unfold Qlt, inject_Z. simpl. lia.
Qed.

Lemma le_of_Z (a b : Z) : le (of_Z a) (of_Z b) = true <-> (a <= b)%Z.
Proof.
  unfold of_Z. simpl. rewrite Qle_bool_iff.
  unfold Qle, inject_Z. simpl. lia.
Qed.

Lemma sub_of_Z (a b : Z) : sub (of_Z a) (of_Z b) = of_Z (a - b).
Proof.
  unfold of_Z, sub, add, neg, inject_Z, Qplus, Qopp. simpl.
  do 2 f_equal. lia.
Qed.

(** Two numbers that are not [NaN] are comparable. *)
Lemma lt_false_le (a b : number) :
  a <> NaN -> b <> NaN -> lt a b = false -> le b a = true.
Proof.
  intros Ha Hb. destruct a as [| sa | x], b as [| sb | y];
    try congruence; simpl.
  - destruct sa, sb; simpl; congruence.
  - destruct sa; simpl; congruence.
  - destruct sb; simpl; congruence.
  - unfold Qlt_bool. apply negb_false_iff.
Qed.

Lemma lt_true_le (a b : number) : lt a b = true -> le a b = true.
Proof.
  destruct a as [| sa | x], b as [| sb | y]; simpl; try congruence.
  - destruct sa, sb; simpl; congruence.
  - intros H. apply Qlt_bool_iff in H. apply Qle_bool_iff. lra.
Qed.

Lemma le_refl (a : number) : a <> NaN -> le a a = true.
Proof.
  destruct a as [| s | x]; try congruence; intros _; simpl.
  - destruct s; reflexivity.
  - apply Qle_bool_iff. lra.
Qed.

End OrderFacts.

(** ** [ContadorUsuarios]: the factory, the ids, the comparison *)

Section ContadorUsuariosMore.
Import ContadorUsuarios.

(** X1. The factory method never throws: in any state of the class-level
    fields it returns a user of the minimum age, with the given name and
    the id that was next. *)
Theorem criarUsuarioAdulto_nunca_falha (nome : jsstring) (st : statics) :
  exists (u : instance) (st' : statics),
    criarUsuarioAdulto nome st = (Normal u, st')
    /\ getIdade u = IDADE_MINIMA
    /\ getNome u = nome
    /\ getId u = proximoId st.
Proof.
  unfold criarUsuarioAdulto, constructor.
  replace (validarIdade IDADE_MINIMA) with true by reflexivity. simpl.
  eexists _, _. repeat split.
Qed.

(** One construction keeps the shape of the counters and never lowers
    them. *)
Lemma constructor_counts
    (nome : jsstring) (idade : number) (st : statics) (n : Z) :
  totalUsuarios st = of_Z n -> proximoId st = of_Z (n + 1) ->
  exists m : Z,
    (n <= m)%Z
    /\ totalUsuarios (snd (constructor nome idade st)) = of_Z m
    /\ proximoId (snd (constructor nome idade st)) = of_Z (m + 1).
Proof.
  intros Ht Hp. unfold constructor.
  destruct (validarIdade idade); simpl.
  - exists (n + 1)%Z. rewrite Ht, Hp, !add_of_Z. repeat split; lia.
  - exists n. repeat split; [lia | assumption | assumption].
Qed.

Lemma tentativas_counts
    (args : list (jsstring * number)) (st : statics) (n : Z) :
  totalUsuarios st = of_Z n -> proximoId st = of_Z (n + 1) ->
  exists m : Z,
    (n <= m)%Z
    /\ totalUsuarios (tentativas args st) = of_Z m
    /\ proximoId (tentativas args st) = of_Z (m + 1).
Proof.
  unfold tentativas. revert st n.
  induction args as [| [nome idade] args IH]; intros st n Ht Hp; simpl.
  - exists n. repeat split; [lia | assumption | assumption].
  - destruct (constructor_counts nome idade st n Ht Hp)
      as (m & Hm & Ht' & Hp').
    destruct (IH _ m Ht' Hp') as (k & Hk & Ht'' & Hp'').
    exists k. repeat split; [lia | assumption | assumption].
Qed.

(** X2. Between two resets the ids grow: a user made after another one,
    with any number of accepted or rejected constructions in between,
    has a strictly greater id; and the id of a new user is the count of
    users that [getTotalUsuarios] answers right after. *)
Theorem ids_crescentes
    (st st1 st2 : statics) (nome1 nome2 : jsstring) (idade1 idade2 : number)
    (entre : list (jsstring * number)) (u1 u2 : instance) :
  reachable st ->
  constructor nome1 idade1 st = (Normal u1, st1) ->
  constructor nome2 idade2 (tentativas entre st1) = (Normal u2, st2) ->
  lt (getId u1) (getId u2) = true
  /\ getId u1 = getTotalUsuarios st1
  /\ getId u2 = getTotalUsuarios st2.
Proof.
  intros Hst H1 H2.
  destruct (reachable_counts st Hst) as (n & _ & Ht & Hp).
  unfold constructor in H1.
  destruct (validarIdade idade1); [| discriminate].
  simpl in H1. injection H1 as <- <-.
  destruct (tentativas_counts entre
              {| totalUsuarios := add (totalUsuarios st) (of_Z 1);
                 proximoId := add (proximoId st) (of_Z 1) |} (n + 1))
    as (m & Hm & Ht' & Hp').
  { simpl. rewrite Ht. apply add_of_Z. }
  { simpl. rewrite Hp. apply add_of_Z. }
  unfold constructor in H2.
  destruct (validarIdade idade2); [| discriminate].
  simpl in H2. injection H2 as <- <-.
  unfold getId, getTotalUsuarios. simpl.
  rewrite Hp', Ht', Hp, Ht, !add_of_Z. repeat split.
  apply lt_of_Z. lia.
Qed.

Lemma ids_crescentes_witness :
  lt (getId {| id := of_Z 1; nome := lit "Joao"; idade := of_Z 25 |})
     (getId {| id := of_Z 3; nome := lit "Pedro"; idade := of_Z 18 |}) = true
  /\ getId {| id := of_Z 1; nome := lit "Joao"; idade := of_Z 25 |}
     = getTotalUsuarios (snd (constructor (lit "Joao") (of_Z 25) initial))
  /\ getId {| id := of_Z 3; nome := lit "Pedro"; idade := of_Z 18 |}
     = getTotalUsuarios
         (snd (constructor (lit "Pedro") (of_Z 18)
                 (tentativas [(lit "Crianca", of_Z 15); (lit "Maria", of_Z 30)]
                    (snd (constructor (lit "Joao") (of_Z 25) initial))))).
Proof.
  apply (ids_crescentes initial _ _ (lit "Joao") (lit "Pedro")
           (of_Z 25) (of_Z 18)
           [(lit "Crianca", of_Z 15); (lit "Maria", of_Z 30)]).
  - exact reach_initial.
  - vm_compute. reflexivity.
  - vm_compute. reflexivity.
Defined.

(** X3. For two users whose ages passed the validation, the sign of
    [compararIdade] tells their order: negative exactly when the first is
    younger, zero exactly when the ages are equal, positive exactly when
    the first is older. *)
Theorem compararIdade_ordena (u1 u2 : instance) :
  idadeNoIntervalo (getIdade u1) ->
  idadeNoIntervalo (getIdade u2) ->
  (lt (compararIdade u1 u2) (of_Z 0) = lt (getIdade u1) (getIdade u2))
  /\ (strict_eq (compararIdade u1 u2) (of_Z 0)
      = strict_eq (getIdade u1) (getIdade u2))
  /\ (gt (compararIdade u1 u2) (of_Z 0) = gt (getIdade u1) (getIdade u2)).
Proof.
  unfold getIdade, compararIdade, gt, of_Z.
  intros (x & -> & _) (y & -> & _). simpl.
  assert (B : forall b1 b2 : bool, (b1 = true <-> b2 = true) -> b1 = b2).
  { intros [|] [|] [? ?]; auto. symmetry. auto. }
  repeat split; apply B.
  - rewrite !Qlt_bool_iff. unfold inject_Z. split; intros; lra.
  - rewrite !Qeq_bool_iff. unfold inject_Z. split; intros; lra.
  - rewrite !Qlt_bool_iff. unfold inject_Z. split; intros; lra.
Qed.

Lemma compararIdade_ordena_witness :
  (lt (compararIdade {| id := of_Z 1; nome := lit "Joao"; idade := of_Z 25 |}
         {| id := of_Z 2; nome := lit "Maria"; idade := of_Z 30 |}) (of_Z 0)
   = lt (of_Z 25) (of_Z 30))
  /\ (strict_eq
        (compararIdade {| id := of_Z 1; nome := lit "Joao"; idade := of_Z 25 |}
           {| id := of_Z 2; nome := lit "Maria"; idade := of_Z 30 |}) (of_Z 0)
      = strict_eq (of_Z 25) (of_Z 30))
  /\ (gt (compararIdade {| id := of_Z 1; nome := lit "Joao"; idade := of_Z 25 |}
            {| id := of_Z 2; nome := lit "Maria"; idade := of_Z 30 |}) (of_Z 0)
      = gt (of_Z 25) (of_Z 30)).
Proof.
  apply (compararIdade_ordena
           {| id := of_Z 1; nome := lit "Joao"; idade := of_Z 25 |}
           {| id := of_Z 2; nome := lit "Maria"; idade := of_Z 30 |}).
  - exists (inject_Z 25). repeat split; vm_compute; discriminate.
  - exists (inject_Z 30). repeat split; vm_compute; discriminate.
Defined.

End ContadorUsuariosMore.

(** ** [MathUtils]: the larger, the smaller, the area *)

Section MathUtilsFacts.
Import MathUtils.

(** X4. [maximo] and [minimo] always answer one of their two arguments.
    When neither argument is [NaN], [maximo] is at least both arguments
    and [minimo] is at most both.  When either argument is [NaN], both
    functions answer the second argument: a [NaN] in first position is
    dropped, a [NaN] in second position is returned. *)
Theorem maximo_minimo_escolhem (a b : number) :
  (maximo a b = a \/ maximo a b = b)
  /\ (minimo a b = a \/ minimo a b = b)
  /\ (a <> NaN -> b <> NaN ->
      ge (maximo a b) a = true /\ ge (maximo a b) b = true
      /\ le (minimo a b) a = true /\ le (minimo a b) b = true)
  /\ (a = NaN \/ b = NaN -> maximo a b = b /\ minimo a b = b).
Proof.
  unfold maximo, minimo, gt, ge.
  split; [destruct (lt b a); auto |].
  split; [destruct (lt a b); auto |].
  split.
  - intros Ha Hb. repeat split.
    + destruct (lt b a) eqn:E; [apply le_refl, Ha |].
      apply lt_false_le; assumption.
    + destruct (lt b a) eqn:E; [apply lt_true_le, E | apply le_refl, Hb].
    + destruct (lt a b) eqn:E; [apply le_refl, Ha |].
      apply lt_false_le; assumption.
    + destruct (lt a b) eqn:E; [apply lt_true_le, E | apply le_refl, Hb].
  - intros [-> | ->].
    + destruct b; auto.
    + destruct a; auto.
Qed.

(** X5. [calcularAreaCirculo] accepts every radius: for a radius that is
    not [NaN], negative or infinite as it may be, the area is not
    negative, and a radius and its opposite give the same area. *)
Theorem calcularAreaCirculo_de_qualquer_raio (raio : number) :
  raio <> NaN ->
  ge (calcularAreaCirculo raio) (of_Z 0) = true
  /\ strict_eq (calcularAreaCirculo (neg raio)) (calcularAreaCirculo raio)
     = true.
Proof.
  intros Hr. unfold calcularAreaCirculo, ge, PI, of_Z.
  destruct raio as [| s | x]; [congruence | |].
  - destruct s; split; reflexivity.
  - simpl. split.
    + apply Qle_bool_iff. unfold inject_Z.
      assert (H : (0 <= x * x)%Q) by nra.
      nra.
    + apply Qeq_bool_iff. ring.
Qed.

Lemma calcularAreaCirculo_de_qualquer_raio_witness :
  ge (calcularAreaCirculo (of_Z (-5))) (of_Z 0) = true
  /\ strict_eq (calcularAreaCirculo (neg (of_Z (-5))))
       (calcularAreaCirculo (of_Z (-5))) = true.
Proof.
  apply (calcularAreaCirculo_de_qualquer_raio (of_Z (-5))). discriminate.
Defined.

(** The area of the source's run, radius five. *)
Example area_raio_5 :
  strict_eq (calcularAreaCirculo (of_Z 5)) (Fin (7853975 # 100000)) = true.
Proof. reflexivity. Qed.

End MathUtilsFacts.

(** ** [Pessoa]: which writes go through, and what they leave *)

Section PessoaMore.
Import Pessoa.

Lemma set_idade_guard_false (valor : number) :
  negb (isInteger valor) || lt valor (of_Z 0) = false
  <-> inteiro valor /\ ~ negativo valor.
Proof.
  pose proof (set_idade_guard valor) as G.
  pose proof (isInteger_inteiro valor) as I.
  pose proof (lt_zero_spec valor) as L.
  destruct (isInteger valor), (lt valor (of_Z 0)); simpl in *;
    split; try discriminate; try reflexivity.
  - intros [_ Hn]. exfalso. apply Hn, L. reflexivity.
  - intros _. split; [apply I; reflexivity |].
    intros Hn. apply L in Hn. discriminate.
  - intros [Hi _]. apply I in Hi. discriminate.
  - intros [Hi _]. apply I in Hi. discriminate.
Qed.

(** X6. Assigning to [idade] an integer that is not negative returns
    normally: the age read afterwards is that value, the name is
    untouched, and [ehAdulto] follows the new age at once. *)
Theorem set_idade_aceita (p : instance) (valor : number) :
  inteiro valor ->
  ~ negativo valor ->
  exists p' : instance,
    set_idade valor p = (Normal tt, p')
    /\ get_idade p' = Some valor
    /\ get_nome p' = get_nome p
    /\ get_ehAdulto p' = ge valor (of_Z 18).
Proof.
  intros Hi Hn.
  assert (G : negb (isInteger valor) || lt valor (of_Z 0) = false)
    by (apply set_idade_guard_false; auto).
  unfold set_idade. rewrite G. eexists. repeat split.
Qed.

Lemma set_idade_aceita_witness :
  exists p' : instance,
    set_idade (of_Z 17) {| _nome := lit "Renan"; _idade := Some (of_Z 30) |}
      = (Normal tt, p')
    /\ get_idade p' = Some (of_Z 17)
    /\ get_nome p'
       = get_nome {| _nome := lit "Renan"; _idade := Some (of_Z 30) |}
    /\ get_ehAdulto p' = ge (of_Z 17) (of_Z 18).
Proof.
  apply (set_idade_aceita
           {| _nome := lit "Renan"; _idade := Some (of_Z 30) |} (of_Z 17)).
  - exists (inject_Z 17), 17%Z. split; reflexivity.
  - intros [H | (q & [= <-] & H)]; [discriminate |].
    vm_compute in H. discriminate.
Defined.

(** X7. [new Pessoa(nome, idade)] throws the age error exactly when the
    age is negative or not an integer, and then no object comes out;
    otherwise it returns the object holding the trimmed name and the
    age. *)
Theorem constructor_valida (nome : jsstring) (idade : number) :
  (negativo idade \/ ~ inteiro idade ->
   constructor nome idade = Throw (Error mensagemIdade))
  /\ (inteiro idade /\ ~ negativo idade ->
      constructor nome idade
      = Normal {| _nome := trim nome; _idade := Some idade |})
  /\ (throws (constructor nome idade) = true
      <-> negativo idade \/ ~ inteiro idade).
Proof.
  unfold constructor, set_idade. simpl.
  destruct (negb (isInteger idade) || lt idade (of_Z 0)) eqn:G.
  - assert (Hbad : negativo idade \/ ~ inteiro idade)
      by (apply set_idade_guard; exact G).
    split; [reflexivity |].
    split; [| simpl; tauto].
    intros Hok. apply set_idade_guard_false in Hok. congruence.
  - split.
    { intros Hbad. apply set_idade_guard in Hbad. congruence. }
    split; [reflexivity |].
    simpl. split; [discriminate |].
    intros Hbad. apply set_idade_guard in Hbad. congruence.
Qed.

(** A [Pessoa] whose age is an integer that is not negative. *)
Lemma step_idade_valida (p : instance) (o : op) :
  (exists v, get_idade p = Some v /\ inteiro v /\ ~ negativo v) ->
  exists v, get_idade (step p o) = Some v /\ inteiro v /\ ~ negativo v.
Proof.
  intros (v & Hv & Hi & Hn). destruct o as [valor | valor]; simpl.
  - exists v. auto.
  - unfold set_idade.
    destruct (negb (isInteger valor) || lt valor (of_Z 0)) eqn:G; simpl.
    + exists v. auto.
    + apply set_idade_guard_false in G. exists valor. tauto.
Qed.

(** X8. However a program writes to a [Pessoa] that the constructor
    returned, through [nome] or [idade], with writes that go through and
    writes that throw, the age it holds is always an integer that is not
    negative. *)
Theorem idade_sempre_valida
    (nome : jsstring) (idade : number) (p : instance) (ops : list op) :
  constructor nome idade = Normal p ->
  exists v : number,
    get_idade (exec ops p) = Some v /\ inteiro v /\ ~ negativo v.
Proof.
  intros Hc.
  assert (H0 : exists v, get_idade p = Some v /\ inteiro v /\ ~ negativo v).
  { unfold constructor, set_idade in Hc. simpl in Hc.
    destruct (negb (isInteger idade) || lt idade (of_Z 0)) eqn:G;
      [discriminate |].
    injection Hc as <-. apply set_idade_guard_false in G.
    exists idade. tauto. }
  clear Hc. revert p H0. unfold exec.
  induction ops as [| o ops IH]; intros p H0; simpl.
  - exact H0.
  - apply IH, step_idade_valida, H0.
Qed.

Lemma idade_sempre_valida_witness :
  exists v : number,
    get_idade
      (exec [SetIdade (of_Z 31); SetIdade (of_Z (-5)); SetNome (lit " Ana ");
             SetIdade (Fin (1 # 2)); SetIdade NaN]
         {| _nome := lit "Renan"; _idade := Some (of_Z 30) |}) = Some v
    /\ inteiro v /\ ~ negativo v.
Proof.
  apply (idade_sempre_valida (lit "  Renan  ") (of_Z 30)). reflexivity.
Defined.

Lemma trimStart_limpo (t : jsstring) : limpoNoInicio t -> trimStart t = t.
Proof. destruct t as [| c t]; simpl; [reflexivity |]. now intros ->. Qed.

Lemma trim_limpo (t : jsstring) :
  limpoNoInicio t -> limpoNoInicio (rev t) -> trim t = t.
Proof.
  intros H1 H2. unfold trim, trimEnd.
  rewrite (trimStart_limpo t H1), (trimStart_limpo (rev t) H2).
  apply rev_involutive.
Qed.

Lemma trim_trim (s : jsstring) : trim (trim s) = trim s.
Proof.
  destruct (trim_aparado s) as (pre & suf & _ & _ & _ & H1 & H2).
  apply trim_limpo; assumption.
Qed.

(** X9. The name of a [Pessoa] is always stored trimmed, so writing back
    the name just read changes nothing: after any writes to an object
    that the constructor returned, [p.nome = p.nome] leaves the object
    as it is. *)
Theorem nome_regravado
    (nome : jsstring) (idade : number) (p : instance) (ops : list op) :
  constructor nome idade = Normal p ->
  set_nome (get_nome (exec ops p)) (exec ops p) = exec ops p.
Proof.
  intros Hc.
  assert (H0 : trim (get_nome p) = get_nome p).
  { unfold constructor, set_idade in Hc. simpl in Hc.
    destruct (negb (isInteger idade) || lt idade (of_Z 0));
      [discriminate |].
    injection Hc as <-. simpl. apply trim_trim. }
  clear Hc.
  assert (H : trim (get_nome (exec ops p)) = get_nome (exec ops p)).
  { revert p H0. unfold exec.
    induction ops as [| o ops IH]; intros p H0; simpl; [exact H0 |].
    apply IH. destruct o as [valor | valor]; simpl.
    - apply trim_trim.
    - unfold set_idade.
      destruct (negb (isInteger valor) || lt valor (of_Z 0)); exact H0. }
  unfold set_nome. rewrite H. destruct (exec ops p). reflexivity.
Qed.

Lemma nome_regravado_witness :
  set_nome
    (get_nome (exec [SetNome ([9; 32] ++ lit "Ana Maria" ++ [160])%N;
                     SetIdade (of_Z 31)]
                 {| _nome := lit "Renan"; _idade := Some (of_Z 30) |}))
    (exec [SetNome ([9; 32] ++ lit "Ana Maria" ++ [160])%N;
           SetIdade (of_Z 31)]
       {| _nome := lit "Renan"; _idade := Some (of_Z 30) |})
  = exec [SetNome ([9; 32] ++ lit "Ana Maria" ++ [160])%N; SetIdade (of_Z 31)]
      {| _nome := lit "Renan"; _idade := Some (of_Z 30) |}.
Proof.
  apply (nome_regravado (lit "  Renan  ") (of_Z 30)). reflexivity.
Defined.

End PessoaMore.

(** ** [ConfiguracaoApp]: one map behind every reference *)

Section ConfiguracaoAppFacts.
Import ConfiguracaoApp.

Lemma step_instanciaViva (st : state) (o : op) :
  instanciaViva st -> instanciaViva (step st o).
Proof.
  intros Hv. destruct o as [| this chave | this chave valor | this]; simpl.
  - unfold getInstance. destruct (instancia st) eqn:E; simpl; [exact Hv |].
    intros l [= <-]. simpl. rewrite lookup_insert_eq. eauto.
  - exact Hv.
  - unfold setConfiguracao.
    destruct (objetos st !! this) eqn:E; simpl; [| exact Hv].
    intros l Hl. simpl in *. destruct (decide (this = l)) as [-> | Hne].
    + rewrite lookup_insert_eq. eauto.
    + rewrite lookup_insert_ne by exact Hne. apply Hv, Hl.
  - unfold listarConfiguracoes. destruct (objetos st !! this); exact Hv.
Qed.

Lemma exec_instanciaViva (ops : list op) (st : state) :
  instanciaViva st -> instanciaViva (exec ops st).
Proof.
  unfold exec. revert st. induction ops as [| o ops IH]; intros st H; simpl.
  - exact H.
  - apply IH, step_instanciaViva, H.
Qed.

Lemma initial_instanciaViva : instanciaViva initial.
Proof. intros l H. discriminate. Qed.

(** After [getInstance] the reference it answers denotes an object. *)
Lemma getInstance_viva (st : state) :
  instanciaViva st ->
  instancia (snd (getInstance st)) = Some (fst (getInstance st))
  /\ is_Some (objetos (snd (getInstance st)) !! fst (getInstance st)).
Proof.
  intros Hv. unfold getInstance. destruct (instancia st) as [l |] eqn:E; simpl.
  - split; [exact E | apply Hv, E].
  - split; [reflexivity |]. rewrite lookup_insert_eq. eauto.
Qed.

(** X10. In any run, a value written with [setConfiguracao] through one
    reference from [getInstance] is what [getConfiguracao] reads under
    that key through a reference from a later [getInstance]; every other
    key reads as before the write. *)
Theorem configuracao_compartilhada
    (pre : list op) (chave : jsstring) (valor : any) :
  let st0 := exec pre initial in
  let config1 := fst (getInstance st0) in
  let st1 := snd (getInstance st0) in
  let st2 := snd (setConfiguracao config1 chave valor st1) in
  let config2 := fst (getInstance st2) in
  let st3 := snd (getInstance st2) in
  fst (setConfiguracao config1 chave valor st1) = Normal tt
  /\ getConfiguracao config2 chave st3 = Normal (Some valor)
  /\ forall outra : jsstring,
       outra <> chave ->
       getConfiguracao config2 outra st3 = getConfiguracao config1 outra st1.
Proof.
  intros st0 config1 st1 st2 config2 st3.
  assert (Hv0 : instanciaViva st0)
    by apply exec_instanciaViva, initial_instanciaViva.
  destruct (getInstance_viva st0 Hv0) as [Hi1 [o Ho]].
  fold config1 st1 in Hi1, Ho.
  assert (E2 : setConfiguracao config1 chave valor st1
               = (Normal tt,
                  {| instancia := instancia st1;
                     objetos :=
                       <[config1 :=
                           {| configuracoes :=
                                <[chave := valor]> (configuracoes o) |}]>
                         (objetos st1) |})).
  { unfold setConfiguracao. rewrite Ho. reflexivity. }
  assert (E3 : getInstance st2 = (config1, st2)).
  { unfold getInstance, st2. rewrite E2. simpl. rewrite Hi1. reflexivity. }
  unfold config2, st3. rewrite E3. simpl. unfold st2. rewrite E2. simpl.
  split; [reflexivity |].
  unfold getConfiguracao. simpl. rewrite lookup_insert_eq, Ho. simpl.
  split.
  - rewrite lookup_insert_eq. reflexivity.
  - intros outra Hne. rewrite lookup_insert_ne by congruence. reflexivity.
Qed.

(** X11. The object that the first [getInstance] makes holds the four
    default settings, and any other key reads [undefined]. *)
Theorem configuracoes_padrao (st : state) (chave : jsstring) :
  instancia st = None ->
  chave ∉ [lit "theme"; lit "language"; lit "timeout"; lit "debug"] ->
  let config := fst (getInstance st) in
  let st1 := snd (getInstance st) in
  getConfiguracao config (lit "theme") st1
  = Normal (Some (AString (lit "dark")))
  /\ getConfiguracao config (lit "language") st1
     = Normal (Some (AString (lit "pt-BR")))
  /\ getConfiguracao config (lit "timeout") st1
     = Normal (Some (ANumber (of_Z 5000)))
  /\ getConfiguracao config (lit "debug") st1
     = Normal (Some (ABoolean false))
  /\ getConfiguracao config chave st1 = Normal None.
Proof.
  intros E Hn config st1. unfold config, st1, getInstance. rewrite E. simpl.
  unfold getConfiguracao. simpl. rewrite lookup_insert_eq. simpl.
  unfold constructor, carregarConfiguracoesPadrao. simpl.
  repeat split; try (vm_compute; reflexivity).
  rewrite !lookup_insert_ne by (intros <-; apply Hn; set_solver).
  rewrite lookup_empty. reflexivity.
Qed.

Lemma configuracoes_padrao_witness :
  getConfiguracao (fst (getInstance initial)) (lit "theme")
    (snd (getInstance initial))
  = Normal (Some (AString (lit "dark")))
  /\ getConfiguracao (fst (getInstance initial)) (lit "language")
       (snd (getInstance initial))
     = Normal (Some (AString (lit "pt-BR")))
  /\ getConfiguracao (fst (getInstance initial)) (lit "timeout")
       (snd (getInstance initial))
     = Normal (Some (ANumber (of_Z 5000)))
  /\ getConfiguracao (fst (getInstance initial)) (lit "debug")
       (snd (getInstance initial))
     = Normal (Some (ABoolean false))
  /\ getConfiguracao (fst (getInstance initial)) (lit "porta")
       (snd (getInstance initial))
     = Normal None.
Proof.
  apply (configuracoes_padrao initial (lit "porta")).
  - reflexivity.
  - rewrite list_elem_of_In. simpl. intuition discriminate.
Defined.

End ConfiguracaoAppFacts.

(** ** [Logger]: what is recorded, and what a snapshot keeps *)

Section LoggerMore.
Import Logger.

Lemma step_chamar
    (st : state) (this : loc) (o : instance) (entradas : list jsstring)
    (c : nivel * jsstring * jsstring) :
  objetos st !! this = Some o ->
  arrays st !! logs o = Some entradas ->
  step st (chamar this c)
  = {| instancia := instancia st; objetos := objetos st;
       arrays := <[logs o := entradas ++ [formatar c]]> (arrays st) |}.
Proof.
  intros Ho Ha. destruct c as [[n m] t]. simpl. unfold log.
  rewrite Ho, Ha. reflexivity.
Qed.

(** X12. Calls of [log] on a logger are recorded in call order, each as
    [[timestamp] LEVEL: message], after the entries already there:
    [exportarLogs] answers all of them joined by line feeds. *)
Theorem log_acrescenta
    (st : state) (this : loc) (o : instance)
    (entradas : list jsstring)
    (chamadas : list (nivel * jsstring * jsstring)) :
  objetos st !! this = Some o ->
  arrays st !! logs o = Some entradas ->
  objetos (exec (map (chamar this) chamadas) st) !! this = Some o
  /\ arrays (exec (map (chamar this) chamadas) st) !! logs o
     = Some (entradas ++ map formatar chamadas)
  /\ exportarLogs this (exec (map (chamar this) chamadas) st)
     = Normal (join [10%N] (entradas ++ map formatar chamadas)).
Proof.
  intros Ho Ha.
  assert (H : objetos (exec (map (chamar this) chamadas) st) !! this = Some o
              /\ arrays (exec (map (chamar this) chamadas) st) !! logs o
                 = Some (entradas ++ map formatar chamadas)).
  { revert st entradas Ho Ha. unfold exec.
    induction chamadas as [| c chamadas IH];
      intros st entradas Ho Ha; simpl.
    - rewrite app_nil_r. auto.
    - rewrite (step_chamar st this o entradas c Ho Ha).
      replace (entradas ++ formatar c :: map formatar chamadas)
        with ((entradas ++ [formatar c]) ++ map formatar chamadas)
        by (rewrite <- app_assoc; reflexivity).
      apply IH; simpl; [exact Ho | apply lookup_insert_eq]. }
  destruct H as [H1 H2]. repeat split; [exact H1 | exact H2 |].
  unfold exportarLogs. rewrite H1, H2. reflexivity.
Qed.

Lemma log_acrescenta_witness :
  objetos (exec (map (chamar 1)
                   [(ERROR, lit "falha", lit "T3"); (INFO, lit "fim", lit "T4")])
             doisLogs) !! 1%positive
  = Some {| logs := 1 |}
  /\ arrays (exec (map (chamar 1)
                     [(ERROR, lit "falha", lit "T3");
                      (INFO, lit "fim", lit "T4")])
               doisLogs) !! logs {| logs := 1 |}
     = Some ([lit "[T1] INFO: inicio"; lit "[T2] WARN: debug"]
             ++ map formatar
                  [(ERROR, lit "falha", lit "T3"); (INFO, lit "fim", lit "T4")])
  /\ exportarLogs 1
       (exec (map (chamar 1)
                [(ERROR, lit "falha", lit "T3"); (INFO, lit "fim", lit "T4")])
          doisLogs)
     = Normal (join [10%N]
                 ([lit "[T1] INFO: inicio"; lit "[T2] WARN: debug"]
                  ++ map formatar
                       [(ERROR, lit "falha", lit "T3");
                        (INFO, lit "fim", lit "T4")])).
Proof.
  apply (log_acrescenta doisLogs 1 {| logs := 1 |}
           [lit "[T1] INFO: inicio"; lit "[T2] WARN: debug"]
           [(ERROR, lit "falha", lit "T3"); (INFO, lit "fim", lit "T4")]).
  - vm_compute. reflexivity.
  - vm_compute. reflexivity.
Defined.

Lemma fresh_ne (r : loc) (xs : list jsstring) (m : gmap loc (list jsstring)) :
  m !! r = Some xs -> fresh (dom m) <> r.
Proof.
  intros H E. apply (is_fresh (dom m)). rewrite E.
  apply elem_of_dom. eauto.
Qed.

Lemma step_alheio (r : loc) (xs : list jsstring) (st : state) (o : op) :
  alheio r xs st -> alheio r xs (step st o).
Proof.
  intros [Hr Hno].
  assert (Hf : fresh (dom (arrays st)) <> r) by (eapply fresh_ne; eauto).
  assert (Hlog : forall this n m t, alheio r xs (snd (log this n m t st))).
  { intros this n m t. unfold log.
    destruct (objetos st !! this) as [ob |] eqn:Eo; [| split; assumption].
    destruct (arrays st !! logs ob); [| split; assumption].
    simpl. split; simpl; [| exact Hno].
    rewrite lookup_insert_ne by (eapply Hno; eauto). exact Hr. }
  destruct o as [| this n m t | this m t | this m t | this m t
                 | this | this | this]; simpl;
    try apply Hlog; try (split; assumption).
  - unfold getInstance, constructor.
    destruct (instancia st); simpl; [split; assumption |].
    split; simpl.
    + rewrite lookup_insert_ne by exact Hf. exact Hr.
    + intros l ob Hl.
      destruct (decide (fresh (dom (objetos st)) = l)) as [<- | Hne].
      * rewrite lookup_insert_eq in Hl. injection Hl as <-. exact Hf.
      * rewrite lookup_insert_ne in Hl by exact Hne. eapply Hno, Hl.
  - unfold getLogs.
    destruct (objetos st !! this) as [ob |]; [| split; assumption].
    destruct (arrays st !! logs ob); [| split; assumption].
    simpl. split; simpl; [| exact Hno].
    rewrite lookup_insert_ne by exact Hf. exact Hr.
  - unfold limparLogs.
    destruct (objetos st !! this) as [ob |]; [| split; assumption].
    simpl. split; simpl.
    + rewrite lookup_insert_ne by exact Hf. exact Hr.
    + intros l ob' Hl. destruct (decide (this = l)) as [<- | Hne].
      * rewrite lookup_insert_eq in Hl. injection Hl as <-. exact Hf.
      * rewrite lookup_insert_ne in Hl by exact Hne. eapply Hno, Hl.
Qed.

Lemma exec_alheio (r : loc) (xs : list jsstring) (ops : list op) (st : state) :
  alheio r xs st -> alheio r xs (exec ops st).
Proof.
  unfold exec. revert st. induction ops as [| o ops IH]; intros st H; simpl.
  - exact H.
  - apply IH, step_alheio, H.
Qed.

(** X13. The array that [getLogs] hands out is a snapshot: whatever the
    program does with the logger afterwards, logging more, clearing the
    logs, asking for the logs again, the array keeps the entries it was
    made with. *)
Theorem getLogs_instantaneo
    (st : state) (this : loc) (o : instance) (depois : list op) :
  bemFormado st ->
  objetos st !! this = Some o ->
  exists (entradas : list jsstring) (r : loc) (st1 : state),
    arrays st !! logs o = Some entradas
    /\ getLogs this st = (Normal r, st1)
    /\ arrays (exec depois st1) !! r = Some entradas.
Proof.
  intros Hwf Hthis.
  destruct (Hwf this o Hthis) as [entradas Hlogs].
  set (r := fresh (dom (arrays st))).
  exists entradas, r,
    {| instancia := instancia st; objetos := objetos st;
       arrays := <[r := entradas]> (arrays st) |}.
  split; [exact Hlogs |].
  split.
  { unfold getLogs. rewrite Hthis, Hlogs. reflexivity. }
  apply exec_alheio. split; simpl.
  - apply lookup_insert_eq.
  - intros l ob Hl E. destruct (Hwf l ob Hl) as [ys Hys].
    apply (fresh_ne (logs ob) ys (arrays st) Hys). symmetry. exact E.
Qed.

Lemma getLogs_instantaneo_witness :
  exists (entradas : list jsstring) (r : loc) (st1 : state),
    arrays doisLogs !! logs {| logs := 1 |} = Some entradas
    /\ getLogs 1 doisLogs = (Normal r, st1)
    /\ arrays (exec [Err 1 (lit "falha") (lit "T3"); LimparLogs 1;
                     GetLogs 1; Info 1 (lit "fim") (lit "T4")] st1) !! r
       = Some entradas.
Proof.
  apply (getLogs_instantaneo doisLogs 1 {| logs := 1 |}
           [Err 1 (lit "falha") (lit "T3"); LimparLogs 1;
            GetLogs 1; Info 1 (lit "fim") (lit "T4")]).
  - apply (exec_bemFormado
             [GetInstance; Info 1 (lit "inicio") (lit "T1");
              Warn 1 (lit "debug") (lit "T2")]
             initial initial_bemFormado).
  - vm_compute. reflexivity.
Defined.

(** X14. After [limparLogs] the logger has no entries: [exportarLogs]
    answers the empty string and [getLogs] an empty array.  The logger is
    given a new array; the one it had is not emptied. *)
Theorem limparLogs_esvazia (st : state) (this : loc) (o : instance) :
  bemFormado st ->
  objetos st !! this = Some o ->
  exists st1 : state,
    limparLogs this st = (Normal tt, st1)
    /\ exportarLogs this st1 = Normal []
    /\ (exists (r : loc) (st2 : state),
          getLogs this st1 = (Normal r, st2) /\ arrays st2 !! r = Some [])
    /\ arrays st1 !! logs o = arrays st !! logs o.
Proof.
  intros Hwf Hthis. destruct (Hwf this o Hthis) as [xs Hxs].
  set (a := fresh (dom (arrays st))).
  assert (Ha : a <> logs o) by (eapply fresh_ne, Hxs).
  exists {| instancia := instancia st;
            objetos := <[this := {| logs := a |}]> (objetos st);
            arrays := <[a := []]> (arrays st) |}.
  split.
  { unfold limparLogs. rewrite Hthis. reflexivity. }
  split.
  { unfold exportarLogs. simpl. rewrite lookup_insert_eq. simpl.
    rewrite lookup_insert_eq. reflexivity. }
  split.
  - unfold getLogs. simpl. rewrite lookup_insert_eq. simpl.
    rewrite lookup_insert_eq.
    eexists _, _. split; [reflexivity |]. simpl. apply lookup_insert_eq.
  - simpl. apply lookup_insert_ne. exact Ha.
Qed.

Lemma limparLogs_esvazia_witness :
  exists st1 : state,
    limparLogs 1 doisLogs = (Normal tt, st1)
    /\ exportarLogs 1 st1 = Normal []
    /\ (exists (r : loc) (st2 : state),
          getLogs 1 st1 = (Normal r, st2) /\ arrays st2 !! r = Some [])
    /\ arrays st1 !! logs {| logs := 1 |}
       = arrays doisLogs !! logs {| logs := 1 |}.
Proof.
  apply (limparLogs_esvazia doisLogs 1 {| logs := 1 |}).
  - apply (exec_bemFormado
             [GetInstance; Info 1 (lit "inicio") (lit "T1");
              Warn 1 (lit "debug") (lit "T2")]
             initial initial_bemFormado).
  - vm_compute. reflexivity.
Defined.

End LoggerMore.

(** ** [ContadorGlobal]: counting through the shared object *)

Section ContadorGlobalFacts.
Import ContadorGlobal.

(** X15. Starting from an integer count, any sequence of [incrementar]
    and [decrementar] calls on the counter object leaves the count at the
    start plus the number of increments minus the number of decrements,
    and that is what [getValor] reads. *)
Theorem contador_conta
    (st : state) (this : loc) (n : Z) (ops : list op) :
  objetos st !! this = Some {| contador := of_Z n |} ->
  Forall (fun o => o = Incrementar this \/ o = Decrementar this) ops ->
  getValor this (exec ops st)
  = Normal (of_Z (n + Z.of_nat (length (List.filter ehIncrementar ops))
                  - Z.of_nat (length (List.filter ehDecrementar ops)))).
Proof.
  intros Ho Hops. revert st n Ho. unfold exec.
  induction Hops as [| o ops [-> | ->] _ IH]; intros st n Ho; simpl.
  - unfold getValor. rewrite Ho. simpl. do 2 f_equal. lia.
  - assert (E : snd (incrementar this st)
                 = {| instancia := instancia st;
                      objetos :=
                        <[this := {| contador := of_Z (n + 1) |}]>
                          (objetos st) |})
      by (unfold incrementar; rewrite Ho; rewrite <- add_of_Z; reflexivity).
    rewrite E.
    rewrite (IH _ (n + 1)%Z).
    + do 2 f_equal. simpl length. lia.
    + apply lookup_insert_eq.
  - assert (E : snd (decrementar this st)
                 = {| instancia := instancia st;
                      objetos :=
                        <[this := {| contador := of_Z (n - 1) |}]>
                          (objetos st) |})
      by (unfold decrementar; rewrite Ho; rewrite <- sub_of_Z; reflexivity).
    rewrite E.
    rewrite (IH _ (n - 1)%Z).
    + do 2 f_equal. simpl length. lia.
    + apply lookup_insert_eq.
Qed.

Lemma contador_conta_witness :
  getValor 1
    (exec [Incrementar 1; Incrementar 1; Incrementar 1; Decrementar 1]
       (snd (getInstance initial)))
  = Normal (of_Z (0 + Z.of_nat (length (List.filter ehIncrementar
                     [Incrementar 1; Incrementar 1; Incrementar 1;
                      Decrementar 1]))
                  - Z.of_nat (length (List.filter ehDecrementar
                       [Incrementar 1; Incrementar 1; Incrementar 1;
                        Decrementar 1])))).
Proof.
  apply (contador_conta (snd (getInstance initial)) 1 0
           [Incrementar 1; Incrementar 1; Incrementar 1; Decrementar 1]).
  - vm_compute. reflexivity.
  - repeat (constructor; [auto |]). constructor.
Defined.

End ContadorGlobalFacts.

(** ** [Calculadora]: the square root *)

Section CalculadoraMore.
Import Calculadora.

(** X16. Whatever [Math.sqrt] computes, [calcularRaizQuadrada] throws its
    error exactly on the negative numbers, minus infinity included; every
    other argument, [NaN] included, goes to [Math.sqrt]. *)
Theorem calcularRaizQuadrada_recusa_negativos
    (sqrt : number -> number) (numero : number) :
  (throws (calcularRaizQuadrada sqrt numero) = true <-> Pessoa.negativo numero)
  /\ (Pessoa.negativo numero ->
      calcularRaizQuadrada sqrt numero = Throw (Error mensagemRaiz))
  /\ (~ Pessoa.negativo numero ->
      calcularRaizQuadrada sqrt numero = Normal (sqrt numero)).
Proof.
  pose proof (lt_zero_spec numero) as L. unfold calcularRaizQuadrada.
  destruct (lt numero (of_Z 0)); simpl.
  - assert (Hn : Pessoa.negativo numero) by (apply L; reflexivity).
    split; [tauto |]. split; [reflexivity | contradiction].
  - assert (Hn : ~ Pessoa.negativo numero).
    { intros H. apply L in H. discriminate. }
    split; [split; [discriminate | contradiction] |].
    split; [contradiction | reflexivity].
Qed.

End CalculadoraMore.

(** ** [ContaBancaria]: how each call ends *)

Section ContaBancariaMore.
Import ContaBancaria.
Local Open Scope metodo_scope.

(** X17. [transferir] from an account to an existing account is all or
    nothing.  With a positive finite amount that the balance covers it
    returns, and the store it leaves is the one that [depositar] on the
    destination leaves after [sacar] on the source: both legs have run.
    With any other amount it throws what [sacar] throws and the store, so
    every balance, is as it was before the call. *)
Theorem transferir_tudo_ou_nada
    (h : heap) (this dest : loc) (c : instance) (v : number) :
  h !! this = Some c ->
  is_Some (h !! dest) ->
  (positivoFinito v -> ge (saldo c) v = true ->
   exists h1 h' : heap,
     sacar this v h = (Normal tt, h1)
     /\ depositar dest v h1 = (Normal tt, h')
     /\ transferir this v dest h = (Normal tt, h'))
  /\ (~ positivoFinito v \/ ge (saldo c) v = false ->
      exists e : exception,
        sacar this v h = (Throw e, h)
        /\ transferir this v dest h = (Throw e, h)).
Proof.
  intros Hc [cd Hd]. split.
  - intros Hv Hge.
    set (h1 := <[this := comSaldo c (sub (saldo c) v)]> h).
    assert (Hd1 : exists cd1, h1 !! dest = Some cd1).
    { unfold h1. destruct (decide (this = dest)) as [-> | Hne].
      - rewrite lookup_insert_eq. eauto.
      - rewrite lookup_insert_ne by exact Hne. eauto. }
    destruct Hd1 as [cd1 Hd1].
    exists h1, (<[dest := comSaldo cd1 (add (saldo cd1) v)]> h1).
    split; [apply (sacar_aceita this v h c Hc Hv Hge) |].
    split; [apply (depositar_aceita dest v h1 cd1 Hd1 Hv) |].
    unfold transferir. unfold bind at 1.
    rewrite (sacar_aceita this v h c Hc Hv Hge). fold h1.
    unfold bind at 1. rewrite (depositar_aceita dest v h1 cd1 Hd1 Hv).
    unfold registrarOperacao, bind, obter, ret.
    rewrite lookup_insert_eq.
    destruct (decide (dest = this)) as [-> | Hne].
    + rewrite lookup_insert_eq. reflexivity.
    + rewrite lookup_insert_ne by exact Hne. unfold h1.
      rewrite lookup_insert_eq. reflexivity.
  - intros Hbad.
    destruct (sacar_rejeita this v h c Hc Hbad) as [msg E].
    exists (Error msg). split; [exact E |].
    unfold transferir. unfold bind at 1. rewrite E. reflexivity.
Qed.

Lemma transferir_tudo_ou_nada_witness :
  (exists h1 h' : heap,
     sacar 1 (of_Z 300) contas = (Normal tt, h1)
     /\ depositar 2 (of_Z 300) h1 = (Normal tt, h')
     /\ transferir 1 (of_Z 300) 2 contas = (Normal tt, h'))
  /\ (exists e : exception,
        sacar 1 (of_Z 5000) contas = (Throw e, contas)
        /\ transferir 1 (of_Z 5000) 2 contas = (Throw e, contas)).
Proof.
  split.
  - apply (transferir_tudo_ou_nada contas 1 2
             {| saldo := of_Z 1000; numeroConta := lit "12345";
                titular := lit "Joao Silva" |} (of_Z 300)).
    + vm_compute. reflexivity.
    + vm_compute. eauto.
    + exists (inject_Z 300). split; reflexivity.
    + reflexivity.
  - apply (transferir_tudo_ou_nada contas 1 2
             {| saldo := of_Z 1000; numeroConta := lit "12345";
                titular := lit "Joao Silva" |} (of_Z 5000)).
    + vm_compute. reflexivity.
    + vm_compute. eauto.
    + right. reflexivity.
Defined.





End ContaBancariaMore.

(** ** [Animal]: telling the animals apart *)

Section AnimalMore.
Import Animal.

(** X20. The sound identifies the animal: two objects whose [emitirSom]
    outputs are equal have the same class and the same name.  The
    inherited [dormir] only shows the name: two objects give equal
    outputs exactly when their names are equal, whatever their classes. *)
Theorem emitirSom_identifica (a b : instance) :
  (emitirSom a = emitirSom b -> a = b)
  /\ (dormir a = dormir b <-> nome a = nome b).
Proof.
  split.
  - intros E. pose proof (emitirSom_classe a b E) as Hc.
    destruct a, b; simpl in Hc; try discriminate; simpl in E;
      apply app_inv_tail in E; congruence.
  - unfold dormir. split.
    + intros E. apply app_inv_tail in E. exact E.
    + intros ->. reflexivity.
Qed.

End AnimalMore.

(** ** Matching by derivatives is matching *)

Section RegExpFacts.
Import RegExp.

Lemma casa_eps_inv (s : jsstring) : casa Eps s <-> s = [].
Proof.
  split; [intros H; inversion H; reflexivity | intros ->; constructor].
Qed.

Lemma casa_classe_inv (p : N -> bool) (s : jsstring) :
  casa (Classe p) s <-> exists c : N, s = [c] /\ p c = true.
Proof.
  split.
  - intros H. inversion H; subst. eauto.
  - intros (c & -> & H). constructor. exact H.
Qed.

Lemma casa_seq_inv (r1 r2 : regex) (s : jsstring) :
  casa (Seq r1 r2) s
  <-> exists s1 s2 : jsstring, s = s1 ++ s2 /\ casa r1 s1 /\ casa r2 s2.
Proof.
  split.
  - intros H. inversion H; subst. eauto.
  - intros (s1 & s2 & -> & H1 & H2). constructor; assumption.
Qed.

Lemma casa_alt_inv (r1 r2 : regex) (s : jsstring) :
  casa (Alt r1 r2) s <-> casa r1 s \/ casa r2 s.
Proof.
  split.
  - intros H. inversion H; subst; auto.
  - intros [H | H]; [apply casa_alt_l | apply casa_alt_r]; exact H.
Qed.

Lemma casa_vazio_inv (s : jsstring) : ~ casa Vazio s.
Proof. intros H. inversion H. Qed.

Lemma nullable_casa (r : regex) : nullable r = true <-> casa r [].
Proof.
  split.
  - induction r as [| | p | r1 IH1 r2 IH2 | r1 IH1 r2 IH2 | r IH]; simpl;
      intros H; try discriminate.
    + constructor.
    + apply andb_true_iff in H as [H1 H2].
      apply (casa_seq r1 r2 [] []); auto.
    + apply orb_true_iff in H as [H | H];
        [apply casa_alt_l | apply casa_alt_r]; auto.
    + constructor.
  - intros H. remember (@nil N) as s eqn:Es.
    induction H as [| p c Hp | r1 r2 s1 s2 H1 IH1 H2 IH2 | r1 r2 s H IH
                    | r1 r2 s H IH | r | r s1 s2 H1 IH1 H2 IH2]; simpl;
      try discriminate; try reflexivity.
    + apply app_eq_nil in Es as [-> ->].
      rewrite IH1, IH2; reflexivity.
    + rewrite IH; [reflexivity | exact Es].
    + rewrite IH; [apply orb_true_r | exact Es].
Qed.

Lemma casa_estrela_cons (r : regex) (c : N) (s : jsstring) :
  casa (Estrela r) (c :: s) ->
  exists s1 s2 : jsstring,
    s = s1 ++ s2 /\ casa r (c :: s1) /\ casa (Estrela r) s2.
Proof.
  intros H. remember (Estrela r) as r' eqn:Er.
  remember (c :: s) as s' eqn:Es. revert s Es.
  induction H as [| | | | | r0 | r0 s1 s2 H1 _ H2 IH2]; intros t Es;
    try discriminate.
  injection Er as ->. destruct s1 as [| c1 s1]; simpl in Es.
  - apply IH2; [reflexivity | exact Es].
  - injection Es as -> <-. exists s1, s2. auto.
Qed.

Lemma deriv_casa (r : regex) (c : N) (s : jsstring) :
  casa (deriv c r) s <-> casa r (c :: s).
Proof.
  revert s.
  induction r as [| | p | r1 IH1 r2 IH2 | r1 IH1 r2 IH2 | r IH]; intros s;
    simpl.
  - split; intros H; inversion H.
  - split; intros H; inversion H.
  - destruct (p c) eqn:Hp.
    + rewrite casa_eps_inv, casa_classe_inv. split.
      * intros ->. eauto.
      * intros (c' & E & _). injection E as _ ->. reflexivity.
    + split; [intros H; inversion H |].
      intros H. apply casa_classe_inv in H as (c' & E & H).
      injection E as -> ->. congruence.
  - assert (Hseq : casa (Seq (deriv c r1) r2) s
                   <-> exists s1 s2, s = s1 ++ s2
                                     /\ casa r1 (c :: s1) /\ casa r2 s2).
    { rewrite casa_seq_inv. split; intros (s1 & s2 & E & H1 & H2);
        exists s1, s2; (split; [exact E |]); split; try exact H2;
        apply IH1; exact H1. }
    assert (Hcons : casa (Seq r1 r2) (c :: s)
                    <-> (exists s1 s2, s = s1 ++ s2
                                       /\ casa r1 (c :: s1) /\ casa r2 s2)
                        \/ (casa r1 [] /\ casa r2 (c :: s))).
    { rewrite casa_seq_inv. split.
      - intros (s1 & s2 & E & H1 & H2). destruct s1 as [| c1 s1]; simpl in E.
        + right. subst s2. auto.
        + injection E as <- ->. left. eauto.
      - intros [(s1 & s2 & -> & H1 & H2) | [H1 H2]].
        + exists (c :: s1), s2. auto.
        + exists [], (c :: s). auto. }
    rewrite Hcons. destruct (nullable r1) eqn:Hn.
    + rewrite casa_alt_inv, Hseq, IH2.
      apply nullable_casa in Hn. tauto.
    + rewrite Hseq. split; [auto |].
      intros [H | [H _]]; [exact H |].
      apply nullable_casa in H. congruence.
  - rewrite !casa_alt_inv, IH1, IH2. reflexivity.
  - rewrite casa_seq_inv. split.
    + intros (s1 & s2 & -> & H1 & H2). apply IH in H1.
      apply (casa_estrela_mais r (c :: s1) s2); assumption.
    + intros H. apply casa_estrela_cons in H as (s1 & s2 & -> & H1 & H2).
      exists s1, s2. split; [reflexivity |]. split; [apply IH, H1 | exact H2].
Qed.

Lemma aceita_casa (r : regex) (s : jsstring) :
  aceita r s = true <-> casa r s.
Proof.
  unfold aceita. revert r. induction s as [| c s IH]; intros r; simpl.
  - apply nullable_casa.
  - rewrite IH. apply deriv_casa.
Qed.

(** Repetitions of a class. *)
Lemma casa_estrela_classe (p : N -> bool) (s : jsstring) :
  casa (Estrela (Classe p)) s <-> Forall (fun c => p c = true) s.
Proof.
  split.
  - induction s as [| c s IH]; intros H; [constructor |].
    apply casa_estrela_cons in H as (s1 & s2 & -> & H1 & H2).
    apply casa_classe_inv in H1 as (c' & E & Hp).
    injection E as -> ->. constructor; [exact Hp | apply IH, H2].
  - induction 1 as [| c s Hp _ IH]; [constructor |].
    apply (casa_estrela_mais (Classe p) [c] s); [| exact IH].
    constructor. exact Hp.
Qed.

Lemma casa_mais_classe (p : N -> bool) (s : jsstring) :
  casa (Mais (Classe p)) s <-> s <> [] /\ Forall (fun c => p c = true) s.
Proof.
  unfold Mais. rewrite casa_seq_inv. split.
  - intros (s1 & s2 & -> & H1 & H2).
    apply casa_classe_inv in H1 as (c & -> & Hp).
    apply casa_estrela_classe in H2. split; [discriminate |].
    constructor; assumption.
  - intros [Hne H]. destruct H as [| c s Hp H]; [congruence |].
    exists [c], s. split; [reflexivity |].
    split; [constructor; exact Hp | apply casa_estrela_classe, H].
Qed.

(** A pattern that is one class, with no anchor, asks whether some code
    unit of the string is in the class. *)
Lemma test_classe (p : N -> bool) (s : jsstring) :
  test {| inicio := false; corpo := Classe p; fim := false |} s
  = existsb p s.
Proof.
  unfold test. simpl.
  destruct (existsb p s) eqn:E.
  - apply aceita_casa. apply existsb_exists in E as (c & Hin & Hp).
    apply in_split in Hin as (l1 & l2 & ->).
    apply (casa_seq _ _ l1 (c :: l2)).
    + apply casa_estrela_classe. apply List.Forall_forall. auto.
    + apply (casa_seq _ _ [c] l2); [constructor; exact Hp |].
      apply casa_estrela_classe. apply List.Forall_forall. auto.
  - destruct (aceita _ s) eqn:A; [| reflexivity].
    apply aceita_casa in A.
    apply casa_seq_inv in A as (l1 & l' & -> & _ & A).
    apply casa_seq_inv in A as (l2 & l3 & -> & A & _).
    apply casa_classe_inv in A as (c & -> & Hp).
    assert (existsb p (l1 ++ [c] ++ l3) = true); [| congruence].
    apply existsb_exists. exists c. split; [| exact Hp].
    apply in_or_app. right. left. reflexivity.
Qed.

End RegExpFacts.

(** ** [ValidadorEmail]: which addresses pass, and what comes out *)

Section ValidadorEmailFacts.
Import RegExp JSString ValidadorEmail.

Lemma test_ancorado (r : regex) (s : jsstring) :
  test {| inicio := true; corpo := r; fim := true |} s = true <-> casa r s.
Proof.
  unfold test. simpl. rewrite aceita_casa, casa_seq_inv. split.
  - intros (s1 & s2 & -> & H1 & H2). apply casa_eps_inv in H1 as ->.
    apply casa_seq_inv in H2 as (s3 & s4 & -> & H3 & H4).
    apply casa_eps_inv in H4 as ->. simpl. rewrite app_nil_r. exact H3.
  - intros H. exists [], s. split; [reflexivity |].
    split; [constructor |]. apply casa_seq_inv. exists s, [].
    rewrite app_nil_r. split; [reflexivity |]. split; [exact H | constructor].
Qed.

Lemma casa_unidade (u : N) (s : jsstring) :
  casa (Classe (N.eqb u)) s <-> s = [u].
Proof.
  rewrite casa_classe_inv. split.
  - intros (c & -> & H). apply N.eqb_eq in H. congruence.
  - intros ->. exists u. split; [reflexivity | apply N.eqb_refl].
Qed.

(** The pieces of [split]. *)
Lemma split_sem_separador (sep : N) (s : jsstring) :
  Forall (fun c => c <> sep) s -> split sep s = [s].
Proof.
  induction 1 as [| c s Hc _ IH]; simpl; [reflexivity |].
  apply N.eqb_neq in Hc. rewrite Hc, IH. reflexivity.
Qed.

Lemma split_no_separador (sep : N) (a d : jsstring) :
  Forall (fun c => c <> sep) a ->
  split sep (a ++ sep :: d) = a :: split sep d.
Proof.
  induction 1 as [| c a Hc _ IH]; simpl.
  - rewrite N.eqb_refl. reflexivity.
  - apply N.eqb_neq in Hc. rewrite Hc, IH. reflexivity.
Qed.

Lemma comum_sem_arroba (s : jsstring) :
  Forall comum s -> Forall (fun c => c <> 64%N) s.
Proof.
  intros Hs. eapply Forall_impl; [exact Hs |].
  intros c H E. subst c.
  unfold comum, naoEspacoNemArroba in H. simpl in H. discriminate.
Qed.

Lemma permitido_comum (c : N) : proibido c = false -> comum c.
Proof.
  unfold comum, naoEspacoNemArroba, proibido. intros H.
  destruct (isWhiteSpace c); [rewrite !orb_true_r in H; discriminate |].
  destruct (c =? 64)%N; [rewrite !orb_true_r in H; discriminate |].
  reflexivity.
Qed.

(** What the two strings cut at the first [@] are, for an address of the
    shape. *)
Lemma forma_split (permitido : N -> Prop) (l n s : jsstring) :
  Forall comum l -> Forall comum n -> Forall comum s ->
  split 64 (l ++ [64%N] ++ n ++ [46%N] ++ s) = [l; n ++ [46%N] ++ s].
Proof.
  intros Hl Hn Hs. simpl.
  rewrite split_no_separador by (apply comum_sem_arroba, Hl).
  rewrite split_sem_separador; [reflexivity |].
  apply Forall_app. split; [apply comum_sem_arroba, Hn |].
  constructor; [discriminate | apply comum_sem_arroba, Hs].
Qed.

Lemma formato_forma (email : jsstring) :
  temFormatoValido email = true <-> forma comum email.
Proof.
  unfold temFormatoValido, regexFormato, forma. rewrite test_ancorado.
  rewrite casa_seq_inv. split.
  - intros (l & r1 & -> & Hl & H1).
    apply casa_seq_inv in H1 as (a & r2 & -> & Ha & H2).
    apply casa_seq_inv in H2 as (n & r3 & -> & Hn & H3).
    apply casa_seq_inv in H3 as (d & s & -> & Hd & Hs).
    apply casa_unidade in Ha as ->. apply casa_unidade in Hd as ->.
    apply casa_mais_classe in Hl as [Hl1 Hl2].
    apply casa_mais_classe in Hn as [Hn1 Hn2].
    apply casa_mais_classe in Hs as [Hs1 Hs2].
    exists l, n, s. repeat split; assumption.
  - intros (l & n & s & -> & Hl1 & Hn1 & Hs1 & Hl2 & Hn2 & Hs2).
    exists l, ([64%N] ++ n ++ [46%N] ++ s). split; [reflexivity |].
    split; [apply casa_mais_classe; auto |].
    apply casa_seq; [apply casa_unidade; reflexivity |].
    apply casa_seq; [apply casa_mais_classe; auto |].
    apply casa_seq; [apply casa_unidade; reflexivity |].
    apply casa_mais_classe; auto.
Qed.

(** X21. [temFormatoValido] accepts exactly the strings of the shape
    [local@name.suffix] whose three parts are not empty and hold no white
    space and no [@]; dots may occur anywhere in the three parts. *)
Theorem temFormatoValido_forma (email : jsstring) :
  temFormatoValido email = true <-> forma comum email.
Proof. exact (formato_forma email). Qed.

Lemma temDominioValido_forma (email : jsstring) :
  forma comum email -> temDominioValido email = VBoolean true.
Proof.
  intros (l & n & s & -> & _ & Hn1 & _ & Hl & Hn & Hs).
  unfold temDominioValido. rewrite (forma_split comum) by assumption.
  simpl. unfold land.
  assert (Hd : truthy (VString (n ++ 46%N :: s)) = true).
  { simpl. apply negb_true_iff, bool_decide_eq_false.
    destruct n; discriminate. }
  rewrite Hd.
  assert (Hlen : (0 <? length (n ++ 46%N :: s))%nat = true).
  { apply Nat.ltb_lt. rewrite length_app. simpl. lia. }
  rewrite Hlen. simpl. f_equal. unfold includes.
  apply existsb_exists. exists 46%N. split; [| reflexivity].
  apply in_or_app. right. left. reflexivity.
Qed.

Lemma validar_valor (email : jsstring) :
  validar email
  = VBoolean (temFormatoValido email && temCaracteresValidos email).
Proof.
  unfold validar. destruct (temFormatoValido email) eqn:F.
  - apply formato_forma in F.
    rewrite (temDominioValido_forma email F). reflexivity.
  - reflexivity.
Qed.

(** X22. [validar] always answers a boolean, although [temDominioValido]
    by itself can answer [undefined] or an empty string: once the format
    check has passed, the domain check answers [true], so the answer of
    [validar] is the format check and the local-part check together. *)
Theorem validar_booleano (email : jsstring) :
  validar email
  = VBoolean (temFormatoValido email && temCaracteresValidos email)
  /\ (temFormatoValido email = true ->
      temDominioValido email = VBoolean true).
Proof.
  split; [exact (validar_valor email) |].
  intros F. apply temDominioValido_forma, formato_forma, F.
Qed.

Lemma parteLocal_forma (l n s : jsstring) :
  Forall comum l -> Forall comum n -> Forall comum s ->
  parteLocal (l ++ [64%N] ++ n ++ [46%N] ++ s) = l.
Proof.
  intros Hl Hn Hs. unfold parteLocal.
  rewrite (forma_split comum) by assumption. reflexivity.
Qed.

Lemma existsb_false_Forall (p : N -> bool) (s : jsstring) :
  existsb p s = false <-> Forall (fun c => p c = false) s.
Proof.
  induction s as [| c s IH]; simpl.
  - split; [constructor | reflexivity].
  - rewrite orb_false_iff, IH. split.
    + intros [H1 H2]. constructor; assumption.
    + intros H. inversion H; subst. auto.
Qed.

Lemma validar_aceita (email : jsstring) :
  truthy (validar email) = true
  <-> forma (fun c => proibido c = false) email.
Proof.
  rewrite validar_valor. simpl. rewrite andb_true_iff. split.
  - intros [F C]. apply formato_forma in F.
    destruct F as (l & n & s & -> & Hl1 & Hn1 & Hs1 & Hl & Hn & Hs).
    exists l, n, s. repeat split; try assumption.
    unfold temCaracteresValidos, caracteresProibidos in C.
    rewrite parteLocal_forma, test_classe in C by assumption.
    apply negb_true_iff in C. apply existsb_false_Forall, C.
  - intros (l & n & s & -> & Hl1 & Hn1 & Hs1 & Hl & Hn & Hs).
    assert (Hl' : Forall comum l).
    { eapply Forall_impl; [exact Hl |]. apply permitido_comum. }
    split.
    + apply formato_forma. exists l, n, s. repeat split; assumption.
    + unfold temCaracteresValidos, caracteresProibidos.
      rewrite parteLocal_forma, test_classe by assumption.
      apply negb_true_iff, existsb_false_Forall, Hl.
Qed.

(** X23. [validar] accepts exactly the addresses [local@name.suffix] with
    three parts that are not empty, where [name] and [suffix] hold no
    white space and no [@], and [local] holds none of the forbidden
    characters. *)
Theorem validar_forma (email : jsstring) :
  truthy (validar email) = true
  <-> forma (fun c => proibido c = false) email.
Proof. exact (validar_aceita email). Qed.

(** X24. For an address that [validar] accepts, [extrairDominio] returns
    everything after the [@]: the local part, an [@] and the returned
    domain make up the address again. *)
Theorem extrairDominio_devolve (email l n s : jsstring) :
  email = l ++ [64%N] ++ n ++ [46%N] ++ s ->
  l <> [] -> n <> [] -> s <> [] ->
  Forall (fun c => proibido c = false) l ->
  Forall comum n -> Forall comum s ->
  extrairDominio email = Normal (VString (n ++ [46%N] ++ s))
  /\ parteLocal email = l.
Proof.
  intros E Hl1 Hn1 Hs1 Hl Hn Hs.
  assert (Hl' : Forall comum l).
  { eapply Forall_impl; [exact Hl |]. apply permitido_comum. }
  assert (V : truthy (validar email) = true).
  { apply validar_aceita. exists l, n, s. repeat split; assumption. }
  unfold extrairDominio. rewrite V. simpl. subst email.
  rewrite parteLocal_forma by assumption.
  rewrite (forma_split comum) by assumption. auto.
Qed.

Lemma extrairDominio_devolve_witness :
  extrairDominio (lit "user@domain.co.uk")
  = Normal (VString (lit "domain.co" ++ [46%N] ++ lit "uk"))
  /\ parteLocal (lit "user@domain.co.uk") = lit "user".
Proof.
  apply (extrairDominio_devolve (lit "user@domain.co.uk") (lit "user")
           (lit "domain.co") (lit "uk")).
  - reflexivity.
  - discriminate.
  - discriminate.
  - discriminate.
  - repeat (constructor; [reflexivity |]). constructor.
  - repeat (constructor; [reflexivity |]). constructor.
  - repeat (constructor; [reflexivity |]). constructor.
Defined.

(** X25. [extrairDominio] throws its error exactly for the strings that
    [validar] refuses, that is the strings that are not of the accepted
    shape. *)
Theorem extrairDominio_recusa (email : jsstring) :
  (throws (extrairDominio email) = true
   <-> ~ forma (fun c => proibido c = false) email)
  /\ (~ forma (fun c => proibido c = false) email ->
      extrairDominio email = Throw (Error mensagemEmail)).
Proof.
  pose proof (validar_aceita email) as V. unfold extrairDominio.
  destruct (truthy (validar email)); simpl.
  - assert (F : forma (fun c => proibido c = false) email)
      by (apply V; reflexivity).
    split; [split; [discriminate | contradiction] | contradiction].
  - assert (F : ~ forma (fun c => proibido c = false) email).
    { intros F. apply V in F. discriminate. }
    split; [tauto | reflexivity].
Qed.

(** The three addresses of the source's run, and a few odd ones. *)
Example emails_do_exemplo :
  validar (lit "teste@email.com") = VBoolean true
  /\ validar (lit "invalid-email") = VBoolean false
  /\ validar (lit "user@domain.co.uk") = VBoolean true
  /\ extrairDominio (lit "teste@email.com") = Normal (VString (lit "email.com"))
  /\ temDominioValido (lit "invalid-email") = VUndefined
  /\ temDominioValido (lit "a@") = VString []
  /\ validar (lit "a@b..c") = VBoolean true
  /\ validar (lit ".@.b.c") = VBoolean true
  /\ validar (lit "a:b@c.d") = VBoolean false
  /\ validar (lit "a@b@c.d") = VBoolean false.
Proof. vm_compute. repeat split; reflexivity. Qed.

End ValidadorEmailFacts.
